(** * BlazeRod physics: scene decoding, world construction and motion states

    A shallow embedding of [PhysicsScene.cpp] and [PhysicsWorld.cpp].

    Conventions.
    - A [uint32_t] and a [float] are both carried as the 32-bit pattern that
      [memcpy] places in them, a natural number below [2^32].  The three float
      operations the sources perform themselves (comparison with [0.0f],
      unary minus, the literals [0.0f] and [1.0f]) are exact on bit patterns.
    - A [throw std::invalid_argument(msg)] is the left injection of a sum.
    - The physics engine is an external collaborator.  The calls made on the
      dynamics world are recorded in order; the results of its floating-point
      kernels (matrix inverse and product, Euler conversion, inertia) are
      kept as unevaluated applications. *)

From Stdlib Require Import ZArith Lia.
From Stdlib.Strings Require Import String Byte.
From stdpp Require Import base numbers list.

(** ** Machine scalars *)

Abbreviation u32 := N (only parsing).
Abbreviation f32 := N (only parsing).

(** [x != 0.0f]: false exactly for the two zeros [+0.0] and [-0.0]. *)
Definition f32_ne_zero (v : f32) : bool := negb (N.land v 0x7FFFFFFF =? 0)%N.

(** [-x]: the sign bit is flipped. *)
Definition f32_neg (v : f32) : f32 := N.lxor v 0x80000000%N.

(** A [float] passed where an [int] is expected: the value with its
    fractional part discarded.  The conversion is undefined, [None] here,
    for infinities, NaNs and values whose integral part no [int] holds. *)
Definition f32_to_int (v : f32) : option Z :=
  let exponent := N.land (N.shiftr v 23) 0xFF in
  let significand := Z.of_N (N.lor (N.land v 0x7FFFFF) 0x800000) in
  if (exponent =? 255)%N then None
  else
    let magnitude :=
      if (exponent =? 0)%N then 0%Z
      else if (150 <=? exponent)%N
           then Z.shiftl significand (Z.of_N (exponent - 150))
           else Z.shiftr significand (Z.of_N (150 - exponent)) in
    let value := if N.testbit v 31 then (- magnitude)%Z else magnitude in
    if ((- 2 ^ 31 <=? value) && (value <=? 2 ^ 31 - 1))%Z then Some value else None.

(** The literals [0.0f], [1.0f] and [-9.81f]. *)
Definition f32_0_0 : f32 := 0%N.
Definition f32_1_0 : f32 := 0x3F800000%N.
Definition f32_minus_9_81 : f32 := 0xC11CF5C3%N.

(** ** Exceptions *)

Inductive invalid_argument : Type :=
  InvalidArgument (what : string).

Definition Result (A : Type) : Type := (invalid_argument + A)%type.

Definition throw {A : Type} (what : string) : Result A := inl (InvalidArgument what).

Definition EmptyInput : invalid_argument := InvalidArgument "Empty rigidbody data".
Definition InvalidSize : invalid_argument := InvalidArgument "Invalid rigidbody size".
Definition InvalidJointSize : invalid_argument := InvalidArgument "Invalid joint size".
Definition SizeMismatch : invalid_argument :=
  InvalidArgument "Transform buffer size does not match rigidbody count".
Definition InvalidShape : invalid_argument := InvalidArgument "Invalid shape".
Definition InvalidPhysicsMode : invalid_argument := InvalidArgument "Invalid physics mode".
Definition InvalidIndex : invalid_argument := InvalidArgument "Invalid rigidbody index".

(** ** PhysicsScene.h *)

(** Enumerators.  An enum field holds whatever 32-bit value was cast into it. *)
Definition SPHERE : u32 := 0%N.
Definition BOX : u32 := 1%N.
Definition CAPSULE : u32 := 2%N.

Definition FOLLOW_BONE : u32 := 0%N.
Definition PHYSICS : u32 := 1%N.
Definition PHYSICS_PLUS_BONE : u32 := 2%N.

Definition SPRING_6DOF : u32 := 0%N.

Record Vector3f : Type := mkVector3f {
  x : f32;
  y : f32;
  z : f32
}.

Record RigidBody : Type := mkRigidBody {
  collision_group : u32;
  collision_mask : u32;
  shape_type : u32;
  shape_size : Vector3f;
  shape_position : Vector3f;
  shape_rotation : Vector3f;
  mass : f32;
  move_attenuation : f32;
  rotation_damping : f32;
  repulsion : f32;
  friction_force : f32;
  physics_mode : u32
}.

Record Joint : Type := mkJoint {
  type : u32;
  rigidbody_a_index : u32;
  rigidbody_b_index : u32;
  position : Vector3f;
  rotation : Vector3f;
  position_min : Vector3f;
  position_max : Vector3f;
  rotation_min : Vector3f;
  rotation_max : Vector3f;
  position_spring : Vector3f;
  rotation_spring : Vector3f
}.

Record PhysicsScene : Type := mkPhysicsScene {
  GetRigidBodies : list RigidBody;
  GetJoints : list Joint
}.

(** ** PhysicsScene.cpp *)

(** The byte at address [data + p]. *)
Definition byte_at (data : list byte) (p : nat) : N :=
  Byte.to_N (default "000"%byte (data !! p)).

(** [CopyField]: [memcpy] of four bytes into a 32-bit scalar (the host is
    little-endian: the byte at the lowest address is the least significant). *)
Definition CopyField (data : list byte) (p : nat) : N :=
  N.lor (byte_at data p)
    (N.lor (N.shiftl (byte_at data (p + 1)) 8)
       (N.lor (N.shiftl (byte_at data (p + 2)) 16)
          (N.shiftl (byte_at data (p + 3)) 24))).

(** [CopyEnumField]: the [uint32_t] is copied, then cast to the enum. *)
Definition CopyEnumField (data : list byte) (p : nat) : u32 :=
  let enum_value := CopyField data p in
  enum_value.

Definition CopyVector3fField (data : list byte) (p : nat) : Vector3f :=
  {| x := CopyField data (p + 0);
     y := CopyField data (p + 4);
     z := CopyField data (p + 8) |}.

Definition rigidbody_size : nat := 72.
Definition joint_size : nat := 108.

(** Body of the loop of [DeserializeRigidbodies]. *)
Definition read_rigidbody (data : list byte) (rigidbody_data : nat) : RigidBody :=
  {| collision_group := CopyField data (rigidbody_data + 0);
     collision_mask := CopyField data (rigidbody_data + 4);
     shape_type := CopyEnumField data (rigidbody_data + 8);
     physics_mode := CopyEnumField data (rigidbody_data + 12);
     shape_size := CopyVector3fField data (rigidbody_data + 16);
     shape_position := CopyVector3fField data (rigidbody_data + 28);
     shape_rotation := CopyVector3fField data (rigidbody_data + 40);
     mass := CopyField data (rigidbody_data + 52);
     move_attenuation := CopyField data (rigidbody_data + 56);
     rotation_damping := CopyField data (rigidbody_data + 60);
     repulsion := CopyField data (rigidbody_data + 64);
     friction_force := CopyField data (rigidbody_data + 68) |}.

(** [for (i = ...; i < rigidbody_count; i++)], with [remaining] iterations
    left to run. *)
Fixpoint rigidbodies_loop (data : list byte) (remaining i : nat)
    (rigidbodies : list RigidBody) : list RigidBody :=
  match remaining with
  | O => rigidbodies
  | S remaining' =>
      let rigidbody := read_rigidbody data (i * rigidbody_size) in
      rigidbodies_loop data remaining' (S i) (rigidbodies ++ [rigidbody])
  end.

Definition DeserializeRigidbodies (data : list byte) : Result (list RigidBody) :=
  let size := length data in
  if (size =? 0)%nat then throw "Empty rigidbody data"
  else if negb (size mod rigidbody_size =? 0)%nat then throw "Invalid rigidbody size"
  else
    let rigidbody_count := (size / rigidbody_size)%nat in
    inr (rigidbodies_loop data rigidbody_count 0 []).

Definition read_joint (data : list byte) (joint_data : nat) : Joint :=
  {| type := CopyEnumField data (joint_data + 0);
     rigidbody_a_index := CopyField data (joint_data + 4);
     rigidbody_b_index := CopyField data (joint_data + 8);
     position := CopyVector3fField data (joint_data + 12);
     rotation := CopyVector3fField data (joint_data + 24);
     position_min := CopyVector3fField data (joint_data + 36);
     position_max := CopyVector3fField data (joint_data + 48);
     rotation_min := CopyVector3fField data (joint_data + 60);
     rotation_max := CopyVector3fField data (joint_data + 72);
     position_spring := CopyVector3fField data (joint_data + 84);
     rotation_spring := CopyVector3fField data (joint_data + 96) |}.

Fixpoint joints_loop (data : list byte) (remaining i : nat)
    (joints : list Joint) : list Joint :=
  match remaining with
  | O => joints
  | S remaining' =>
      let joint := read_joint data (i * joint_size) in
      joints_loop data remaining' (S i) (joints ++ [joint])
  end.

Definition DeserializeJoints (data : list byte) : Result (list Joint) :=
  let size := length data in
  if negb (size mod joint_size =? 0)%nat then throw "Invalid joint size"
  else
    let joint_count := (size / joint_size)%nat in
    inr (joints_loop data joint_count 0 []).

(** The constructor initialises [rigidbodies] first, then [joints]; an
    exception from either leaves no scene. *)
Definition PhysicsScene_new (rigidbodies joints : list byte) : Result PhysicsScene :=
  match DeserializeRigidbodies rigidbodies with
  | inl e => inl e
  | inr rbs =>
      match DeserializeJoints joints with
      | inl e => inl e
      | inr js => inr {| GetRigidBodies := rbs; GetJoints := js |}
      end
  end.

(** ** Engine values

    Only what [PhysicsWorld.cpp] reads or writes of them. *)

Record btVector3 : Type := mkbtVector3 {
  getX : f32;
  getY : f32;
  getZ : f32
}.

(** A rotation matrix, by its rows [m_el[0]], [m_el[1]], [m_el[2]]. *)
Record btMatrix3x3 : Type := mkbtMatrix3x3 {
  m_el0 : btVector3;
  m_el1 : btVector3;
  m_el2 : btVector3
}.

Record btTransform : Type := mkbtTransform {
  getBasis : btMatrix3x3;
  getOrigin : btVector3
}.

Definition setOrigin (t : btTransform) (origin : btVector3) : btTransform :=
  {| getBasis := getBasis t; getOrigin := origin |}.

(** [setIdentity]. *)
Definition btTransform_getIdentity : btTransform :=
  {| getBasis :=
       {| m_el0 := mkbtVector3 f32_1_0 f32_0_0 f32_0_0;
          m_el1 := mkbtVector3 f32_0_0 f32_1_0 f32_0_0;
          m_el2 := mkbtVector3 f32_0_0 f32_0_0 f32_1_0 |};
     getOrigin := mkbtVector3 f32_0_0 f32_0_0 f32_0_0 |}.

(** [t.setFromOpenGLMatrix(&buffer[p])]: a column-major 4x4 matrix is read;
    the basis takes [m[0..2]], [m[4..6]], [m[8..10]], the origin [m[12..14]]. *)
Definition setFromOpenGLMatrix (buffer : list f32) (p : nat) : btTransform :=
  let m (k : nat) : f32 := buffer !!! (p + k)%nat in
  {| getBasis :=
       {| m_el0 := mkbtVector3 (m 0%nat) (m 4%nat) (m 8%nat);
          m_el1 := mkbtVector3 (m 1%nat) (m 5%nat) (m 9%nat);
          m_el2 := mkbtVector3 (m 2%nat) (m 6%nat) (m 10%nat) |};
     getOrigin := mkbtVector3 (m 12%nat) (m 13%nat) (m 14%nat) |}.

(** The sixteen floats [getOpenGLMatrix] writes, [m[0]] first. *)
Definition OpenGLMatrix (t : btTransform) : list f32 :=
  let b := getBasis t in
  let o := getOrigin t in
  [ getX (m_el0 b); getX (m_el1 b); getX (m_el2 b); f32_0_0;
    getY (m_el0 b); getY (m_el1 b); getY (m_el2 b); f32_0_0;
    getZ (m_el0 b); getZ (m_el1 b); getZ (m_el2 b); f32_0_0;
    getX o; getY o; getZ o; f32_1_0 ].

(** [t.getOpenGLMatrix(&buffer[p])]. *)
Definition getOpenGLMatrix (t : btTransform) (buffer : list f32) (p : nat) : list f32 :=
  list_inserts p (OpenGLMatrix t) buffer.

(** A transform the engine obtains by arithmetic, kept unevaluated. *)
Inductive btTransformExpr : Type :=
  | transform_value (t : btTransform)
  (** [setIdentity(); setOrigin(origin); setBasis(rotMat)] after
      [rotMat.setEulerZYX(eulerX, eulerY, eulerZ)] *)
  | transform_EulerZYX (origin : btVector3) (eulerX eulerY eulerZ : f32)
  | transform_inverse (t : btTransformExpr)
  | transform_mul (t1 t2 : btTransformExpr).

Inductive btCollisionShape : Type :=
  | btStaticPlaneShape (planeNormal : btVector3) (planeConstant : f32)
  | btBoxShape (boxHalfExtents : btVector3)
  | btSphereShape (radius : f32)
  | btCapsuleShape (radius height : f32).

(** The value of [local_inertia]: a vector, or what
    [shape->calculateLocalInertia(mass, local_inertia)] stores there. *)
Inductive LocalInertia : Type :=
  | inertia_vector (v : btVector3)
  | calculateLocalInertia (shape : btCollisionShape) (mass : f32).

(** ** Motion states (PhysicsWorld.cpp)

    Every motion state of a world holds a pointer to that world; its methods
    reach the world's transform buffer, passed here explicitly. *)

Inductive btMotionState : Type :=
  | FollowBoneMotionState (rigidbody_index : nat)
  | PhysicsMotionState (rigidbody_index : nat)
  | PhysicsPlusBoneDynamicMotionState (rigidbody_index : nat)
  (** the engine's own class, used for the ground only *)
  | btDefaultMotionState (startTrans : btTransform).

Definition getWorldTransform (self : btMotionState) (transform_buffer : list f32)
    : btTransform :=
  match self with
  | FollowBoneMotionState rigidbody_index =>
      setFromOpenGLMatrix transform_buffer (rigidbody_index * 16)
  | PhysicsMotionState rigidbody_index =>
      setFromOpenGLMatrix transform_buffer (rigidbody_index * 16)
  | PhysicsPlusBoneDynamicMotionState rigidbody_index =>
      setFromOpenGLMatrix transform_buffer (rigidbody_index * 16)
  | btDefaultMotionState startTrans => startTrans
  end.

(** Returns the transform buffer after the call. *)
Definition setWorldTransform (self : btMotionState) (world_transform : btTransform)
    (transform_buffer : list f32) : list f32 :=
  match self with
  | FollowBoneMotionState rigidbody_index => transform_buffer
  | PhysicsMotionState rigidbody_index =>
      getOpenGLMatrix world_transform transform_buffer (rigidbody_index * 16)
  | PhysicsPlusBoneDynamicMotionState rigidbody_index =>
      let original_transform :=
        setFromOpenGLMatrix transform_buffer (rigidbody_index * 16) in
      let final_transform := world_transform in
      let final_transform := setOrigin final_transform (getOrigin original_transform) in
      getOpenGLMatrix final_transform transform_buffer (rigidbody_index * 16)
  | btDefaultMotionState startTrans => transform_buffer
  end.

(** ** Collision filter (PhysicsWorld.cpp) *)

(** Pointers to rigid bodies: the ground's, or the one owned by
    [rigidbodies[index]]. *)
Inductive btRigidBodyPtr : Type :=
  | ground_rigidbody_get
  | rigidbody_get (index : nat).

(** Each body has one broadphase proxy. *)
Inductive btBroadphaseProxyPtr : Type :=
  | getBroadphaseProxy (body : btRigidBodyPtr).

Global Instance btRigidBodyPtr_eq_dec : EqDecision btRigidBodyPtr.
Proof. solve_decision. Defined.

Global Instance btBroadphaseProxyPtr_eq_dec : EqDecision btBroadphaseProxyPtr.
Proof. solve_decision. Defined.

(** The two fields the filter reads through a proxy pointer ([int]s). *)
Record btBroadphaseProxy : Type := mkbtBroadphaseProxy {
  m_collisionFilterGroup : Z;
  m_collisionFilterMask : Z
}.

Record PhysicsFilterCallback : Type := mkPhysicsFilterCallback {
  ground_proxy : btBroadphaseProxyPtr
}.

(** [deref] is the memory the proxy pointers point into. *)
Definition needBroadphaseCollision (self : PhysicsFilterCallback)
    (deref : btBroadphaseProxyPtr → btBroadphaseProxy)
    (proxy0 proxy1 : btBroadphaseProxyPtr) : bool :=
  let is_ground :=
    bool_decide (proxy0 = ground_proxy self) || bool_decide (proxy1 = ground_proxy self) in
  let proxy0_collides :=
    negb (Z.land (m_collisionFilterGroup (deref proxy0))
                 (m_collisionFilterMask (deref proxy1)) =? 0)%Z in
  let proxy1_collides :=
    negb (Z.land (m_collisionFilterMask (deref proxy0))
                 (m_collisionFilterGroup (deref proxy1)) =? 0)%Z in
  (proxy0_collides && proxy1_collides) || is_ground.

(** ** Engine rigid bodies and constraints *)

Record btRigidBodyConstructionInfo : Type := mkbtRigidBodyConstructionInfo {
  m_mass : f32;
  m_motionState : btMotionState;
  m_collisionShape : btCollisionShape;
  m_localInertia : LocalInertia;
  m_linearDamping : f32;
  m_angularDamping : f32;
  m_restitution : f32;
  m_friction : f32;
  m_additionalDamping : bool
}.

(** The literal [0.5f], the engine's default friction. *)
Definition f32_0_5 : f32 := 0x3F000000%N.

(** [btRigidBodyConstructionInfo(mass, motionState, collisionShape,
    localInertia)]; the other fields start from the engine's defaults. *)
Definition btRigidBodyConstructionInfo_new (mass : f32) (motionState : btMotionState)
    (collisionShape : btCollisionShape) (localInertia : LocalInertia)
    : btRigidBodyConstructionInfo :=
  {| m_mass := mass;
     m_motionState := motionState;
     m_collisionShape := collisionShape;
     m_localInertia := localInertia;
     m_linearDamping := f32_0_0;
     m_angularDamping := f32_0_0;
     m_restitution := f32_0_0;
     m_friction := f32_0_5;
     m_additionalDamping := false |}.

Definition ACTIVE_TAG : N := 1.
Definition DISABLE_DEACTIVATION : N := 4.
Definition DISABLE_SIMULATION : N := 5.
Definition CF_STATIC_OBJECT : N := 1.
Definition CF_KINEMATIC_OBJECT : N := 2.

(** An engine rigid body: the construction info it was created from (its
    mass and inertia are those), and the state the sources touch later. *)
Record btRigidBody : Type := mkbtRigidBody {
  constructionInfo : btRigidBodyConstructionInfo;
  m_worldTransform : btTransform;
  m_activationState1 : N;
  getCollisionFlags : N
}.

(** [btRigidBody(info)]: the initial world transform is asked from the motion
    state; a body of mass zero starts flagged static. *)
Definition btRigidBody_new (info : btRigidBodyConstructionInfo)
    (transform_buffer : list f32) : btRigidBody :=
  {| constructionInfo := info;
     m_worldTransform := getWorldTransform (m_motionState info) transform_buffer;
     m_activationState1 := ACTIVE_TAG;
     getCollisionFlags := if f32_ne_zero (m_mass info) then 0%N else CF_STATIC_OBJECT |}.

Definition setActivationState (body : btRigidBody) (newState : N) : btRigidBody :=
  if negb (m_activationState1 body =? DISABLE_DEACTIVATION)%N
     && negb (m_activationState1 body =? DISABLE_SIMULATION)%N
  then {| constructionInfo := constructionInfo body;
          m_worldTransform := m_worldTransform body;
          m_activationState1 := newState;
          getCollisionFlags := getCollisionFlags body |}
  else body.

Definition setCollisionFlags (body : btRigidBody) (flags : N) : btRigidBody :=
  {| constructionInfo := constructionInfo body;
     m_worldTransform := m_worldTransform body;
     m_activationState1 := m_activationState1 body;
     getCollisionFlags := flags |}.

(** A 6-DOF spring constraint: its constructor arguments, the vectors passed
    to the four limit setters, and the per-axis spring state. *)
Record btGeneric6DofSpringConstraint : Type := mkbtGeneric6DofSpringConstraint {
  m_rbA : btRigidBodyPtr;
  m_rbB : btRigidBodyPtr;
  m_frameInA : btTransformExpr;
  m_frameInB : btTransformExpr;
  m_useLinearReferenceFrameA : bool;
  linearLowerLimit : btVector3;
  linearUpperLimit : btVector3;
  angularLowerLimit : btVector3;
  angularUpperLimit : btVector3;
  m_springEnabled : list bool;
  m_springStiffness : list f32
}.

(** The constructor: limits at zero, the six springs disabled with stiffness
    zero. *)
Definition btGeneric6DofSpringConstraint_new (rbA rbB : btRigidBodyPtr)
    (frameInA frameInB : btTransformExpr) (useLinearReferenceFrameA : bool)
    : btGeneric6DofSpringConstraint :=
  let zero := mkbtVector3 f32_0_0 f32_0_0 f32_0_0 in
  {| m_rbA := rbA;
     m_rbB := rbB;
     m_frameInA := frameInA;
     m_frameInB := frameInB;
     m_useLinearReferenceFrameA := useLinearReferenceFrameA;
     linearLowerLimit := zero;
     linearUpperLimit := zero;
     angularLowerLimit := zero;
     angularUpperLimit := zero;
     m_springEnabled := replicate 6 false;
     m_springStiffness := replicate 6 f32_0_0 |}.

Definition setLinearLowerLimit (c : btGeneric6DofSpringConstraint) (v : btVector3)
    : btGeneric6DofSpringConstraint :=
  {| m_rbA := m_rbA c; m_rbB := m_rbB c;
     m_frameInA := m_frameInA c; m_frameInB := m_frameInB c;
     m_useLinearReferenceFrameA := m_useLinearReferenceFrameA c;
     linearLowerLimit := v;
     linearUpperLimit := linearUpperLimit c;
     angularLowerLimit := angularLowerLimit c;
     angularUpperLimit := angularUpperLimit c;
     m_springEnabled := m_springEnabled c;
     m_springStiffness := m_springStiffness c |}.

Definition setLinearUpperLimit (c : btGeneric6DofSpringConstraint) (v : btVector3)
    : btGeneric6DofSpringConstraint :=
  {| m_rbA := m_rbA c; m_rbB := m_rbB c;
     m_frameInA := m_frameInA c; m_frameInB := m_frameInB c;
     m_useLinearReferenceFrameA := m_useLinearReferenceFrameA c;
     linearLowerLimit := linearLowerLimit c;
     linearUpperLimit := v;
     angularLowerLimit := angularLowerLimit c;
     angularUpperLimit := angularUpperLimit c;
     m_springEnabled := m_springEnabled c;
     m_springStiffness := m_springStiffness c |}.

Definition setAngularLowerLimit (c : btGeneric6DofSpringConstraint) (v : btVector3)
    : btGeneric6DofSpringConstraint :=
  {| m_rbA := m_rbA c; m_rbB := m_rbB c;
     m_frameInA := m_frameInA c; m_frameInB := m_frameInB c;
     m_useLinearReferenceFrameA := m_useLinearReferenceFrameA c;
     linearLowerLimit := linearLowerLimit c;
     linearUpperLimit := linearUpperLimit c;
     angularLowerLimit := v;
     angularUpperLimit := angularUpperLimit c;
     m_springEnabled := m_springEnabled c;
     m_springStiffness := m_springStiffness c |}.

Definition setAngularUpperLimit (c : btGeneric6DofSpringConstraint) (v : btVector3)
    : btGeneric6DofSpringConstraint :=
  {| m_rbA := m_rbA c; m_rbB := m_rbB c;
     m_frameInA := m_frameInA c; m_frameInB := m_frameInB c;
     m_useLinearReferenceFrameA := m_useLinearReferenceFrameA c;
     linearLowerLimit := linearLowerLimit c;
     linearUpperLimit := linearUpperLimit c;
     angularLowerLimit := angularLowerLimit c;
     angularUpperLimit := v;
     m_springEnabled := m_springEnabled c;
     m_springStiffness := m_springStiffness c |}.

(** [m_springEnabled[index] = onOff]. *)
Definition enableSpring (c : btGeneric6DofSpringConstraint) (index : nat) (onOff : bool)
    : btGeneric6DofSpringConstraint :=
  {| m_rbA := m_rbA c; m_rbB := m_rbB c;
     m_frameInA := m_frameInA c; m_frameInB := m_frameInB c;
     m_useLinearReferenceFrameA := m_useLinearReferenceFrameA c;
     linearLowerLimit := linearLowerLimit c;
     linearUpperLimit := linearUpperLimit c;
     angularLowerLimit := angularLowerLimit c;
     angularUpperLimit := angularUpperLimit c;
     m_springEnabled := <[index := onOff]> (m_springEnabled c);
     m_springStiffness := m_springStiffness c |}.

(** [m_springStiffness[index] = stiffness]. *)
Definition setStiffness (c : btGeneric6DofSpringConstraint) (index : nat) (stiffness : f32)
    : btGeneric6DofSpringConstraint :=
  {| m_rbA := m_rbA c; m_rbB := m_rbB c;
     m_frameInA := m_frameInA c; m_frameInB := m_frameInB c;
     m_useLinearReferenceFrameA := m_useLinearReferenceFrameA c;
     linearLowerLimit := linearLowerLimit c;
     linearUpperLimit := linearUpperLimit c;
     angularLowerLimit := angularLowerLimit c;
     angularUpperLimit := angularUpperLimit c;
     m_springEnabled := m_springEnabled c;
     m_springStiffness := <[index := stiffness]> (m_springStiffness c) |}.

(** Pointers to constraints: the one owned by [joints[index]]. *)
Inductive btTypedConstraintPtr : Type :=
  | joint_get (index : nat).

(** The dynamics world, as the calls it has received, oldest first. *)
Inductive WorldCall : Type :=
  | setGravity (gravity : btVector3)
  | addRigidBody (body : btRigidBodyPtr)
  | setOverlapFilterCallback (callback : PhysicsFilterCallback)
  | addConstraint (constraint : btTypedConstraintPtr)
      (disableCollisionsBetweenLinkedBodies : bool)
  | removeConstraint (constraint : btTypedConstraintPtr)
  | removeRigidBody (body : btRigidBodyPtr)
  | stepSimulation (timeStep : f32) (maxSubSteps : option Z) (fixedTimeStep : f32).

(** ** PhysicsWorld.h *)

Record RigidBodyData : Type := mkRigidBodyData {
  shape : btCollisionShape;
  motion_state : btMotionState;
  rigidbody : btRigidBody
}.

Record PhysicsWorld : Type := mkPhysicsWorld {
  world : list WorldCall;
  ground_shape : btCollisionShape;
  ground_motion_state : btMotionState;
  ground_rigidbody : btRigidBody;
  filter_callback : PhysicsFilterCallback;
  rigidbodies : list RigidBodyData;
  joints : list btGeneric6DofSpringConstraint;
  transform_buffer : list f32
}.

Global Instance RigidBodyData_inhabited : Inhabited RigidBodyData :=
  populate
    (let shape := btSphereShape f32_0_0 in
     let motion_state := btDefaultMotionState btTransform_getIdentity in
     {| shape := shape;
        motion_state := motion_state;
        rigidbody :=
          btRigidBody_new
            (btRigidBodyConstructionInfo_new f32_0_0 motion_state shape
               (inertia_vector (mkbtVector3 f32_0_0 f32_0_0 f32_0_0))) [] |}).

(** ** PhysicsWorld.cpp: the constructor

    The constructor runs on the object under construction and may throw: a
    computation takes the members as they stand and returns them together
    with either the exception or a value.  When an exception leaves the
    constructor the destructor body does not run. *)

Definition Ctor (A : Type) : Type := PhysicsWorld → PhysicsWorld * Result A.

Global Instance Ctor_ret : MRet Ctor := λ A a this, (this, inr a).

Global Instance Ctor_bind : MBind Ctor := λ A B f c this,
  match c this with
  | (this', inl e) => (this', inl e)
  | (this', inr a) => f a this'
  end.

Definition Ctor_throw {A : Type} (what : string) : Ctor A :=
  λ this, (this, throw what).

Definition this_get {A : Type} (member : PhysicsWorld → A) : Ctor A :=
  λ this, (this, inr (member this)).

Definition this_set (update : PhysicsWorld → PhysicsWorld) : Ctor unit :=
  λ this, (update this, inr tt).

(** Unfolds the plumbing of [Ctor]. *)
Ltac unfold_ctor :=
  cbv [mbind mret Ctor_bind Ctor_ret Ctor_throw this_get this_set throw].

(** [this->world->...]: one more call on the dynamics world. *)
Definition world_call (call : WorldCall) (this : PhysicsWorld) : PhysicsWorld :=
  {| world := world this ++ [call];
     ground_shape := ground_shape this;
     ground_motion_state := ground_motion_state this;
     ground_rigidbody := ground_rigidbody this;
     filter_callback := filter_callback this;
     rigidbodies := rigidbodies this;
     joints := joints this;
     transform_buffer := transform_buffer this |}.

(** [this->rigidbodies.push_back(...)]. *)
Definition rigidbodies_push_back (rigidbody_data : RigidBodyData) (this : PhysicsWorld)
    : PhysicsWorld :=
  {| world := world this;
     ground_shape := ground_shape this;
     ground_motion_state := ground_motion_state this;
     ground_rigidbody := ground_rigidbody this;
     filter_callback := filter_callback this;
     rigidbodies := rigidbodies this ++ [rigidbody_data];
     joints := joints this;
     transform_buffer := transform_buffer this |}.

(** [this->joints.push_back(...)]. *)
Definition joints_push_back (constraint : btGeneric6DofSpringConstraint)
    (this : PhysicsWorld) : PhysicsWorld :=
  {| world := world this;
     ground_shape := ground_shape this;
     ground_motion_state := ground_motion_state this;
     ground_rigidbody := ground_rigidbody this;
     filter_callback := filter_callback this;
     rigidbodies := rigidbodies this;
     joints := joints this ++ [constraint];
     transform_buffer := transform_buffer this |}.

(** [GetTransformBuffer()] hands out a reference: the holder overwrites the
    buffer in place. *)
Definition set_transform_buffer (buffer : list f32) (this : PhysicsWorld) : PhysicsWorld :=
  {| world := world this;
     ground_shape := ground_shape this;
     ground_motion_state := ground_motion_state this;
     ground_rigidbody := ground_rigidbody this;
     filter_callback := filter_callback this;
     rigidbodies := rigidbodies this;
     joints := joints this;
     transform_buffer := buffer |}.

(** The members after the statements that precede the size check: the
    buffer is copied, the dynamics world is created and given its gravity,
    the ground plane and the collision filter. *)
Definition PhysicsWorld_init (initial_transform : list f32) : PhysicsWorld :=
  let ground_shape :=
    btStaticPlaneShape (mkbtVector3 f32_0_0 f32_1_0 f32_0_0) f32_0_0 in
  let ground_transform := btTransform_getIdentity in
  let ground_motion_state := btDefaultMotionState ground_transform in
  let ground_rigidbody :=
    btRigidBody_new
      (btRigidBodyConstructionInfo_new f32_0_0 ground_motion_state ground_shape
         (inertia_vector (mkbtVector3 f32_0_0 f32_0_0 f32_0_0)))
      initial_transform in
  let filter_callback :=
    {| ground_proxy := getBroadphaseProxy ground_rigidbody_get |} in
  {| world :=
       [ setGravity (mkbtVector3 f32_0_0 f32_minus_9_81 f32_0_0);
         addRigidBody ground_rigidbody_get;
         setOverlapFilterCallback filter_callback ];
     ground_shape := ground_shape;
     ground_motion_state := ground_motion_state;
     ground_rigidbody := ground_rigidbody;
     filter_callback := filter_callback;
     rigidbodies := [];
     joints := [];
     transform_buffer := initial_transform |}.

(** Body of the loop over the scene's rigid bodies.  [effective_mass] is the
    local variable [mass]. *)
Definition add_rigidbody (rigidbody_index : nat) (rigidbody_item : RigidBody)
    : Ctor unit :=
  shape ←
    (if (shape_type rigidbody_item =? BOX)%N then
       mret (btBoxShape (mkbtVector3 (x (shape_size rigidbody_item))
                                     (y (shape_size rigidbody_item))
                                     (z (shape_size rigidbody_item))))
     else if (shape_type rigidbody_item =? SPHERE)%N then
       mret (btSphereShape (x (shape_size rigidbody_item)))
     else if (shape_type rigidbody_item =? CAPSULE)%N then
       mret (btCapsuleShape (x (shape_size rigidbody_item))
                            (y (shape_size rigidbody_item)))
     else Ctor_throw "Invalid shape");
  let effective_mass :=
    if (physics_mode rigidbody_item =? FOLLOW_BONE)%N then f32_0_0
    else mass rigidbody_item in
  let local_inertia :=
    if f32_ne_zero effective_mass then calculateLocalInertia shape effective_mass
    else inertia_vector (mkbtVector3 f32_0_0 f32_0_0 f32_0_0) in
  motion_state ←
    (if (physics_mode rigidbody_item =? FOLLOW_BONE)%N then
       mret (FollowBoneMotionState rigidbody_index)
     else if (physics_mode rigidbody_item =? PHYSICS)%N then
       mret (PhysicsMotionState rigidbody_index)
     else if (physics_mode rigidbody_item =? PHYSICS_PLUS_BONE)%N then
       mret (PhysicsPlusBoneDynamicMotionState rigidbody_index)
     else Ctor_throw "Invalid physics mode");
  let rigidbody_info :=
    btRigidBodyConstructionInfo_new (mass rigidbody_item) motion_state shape
      local_inertia in
  let rigidbody_info :=
    {| m_mass := m_mass rigidbody_info;
       m_motionState := m_motionState rigidbody_info;
       m_collisionShape := m_collisionShape rigidbody_info;
       m_localInertia := m_localInertia rigidbody_info;
       m_linearDamping := move_attenuation rigidbody_item;
       m_angularDamping := rotation_damping rigidbody_item;
       m_restitution := repulsion rigidbody_item;
       m_friction := friction_force rigidbody_item;
       m_additionalDamping := true |} in
  buffer ← this_get transform_buffer;
  let rigidbody := btRigidBody_new rigidbody_info buffer in
  this_set (world_call (addRigidBody (rigidbody_get rigidbody_index)));;
  let rigidbody := setActivationState rigidbody DISABLE_DEACTIVATION in
  let rigidbody :=
    if (physics_mode rigidbody_item =? FOLLOW_BONE)%N then
      setCollisionFlags rigidbody (N.lor (getCollisionFlags rigidbody) CF_KINEMATIC_OBJECT)
    else rigidbody in
  this_set (rigidbodies_push_back
              {| shape := shape; motion_state := motion_state; rigidbody := rigidbody |}).

(** [for (const RigidBody& rigidbody_item : rigidbodies)], counting in
    [rigidbody_count]. *)
Fixpoint rigidbodies_for (items : list RigidBody) (rigidbody_count : nat) : Ctor unit :=
  match items with
  | [] => mret tt
  | rigidbody_item :: items' =>
      let rigidbody_index := rigidbody_count in
      add_rigidbody rigidbody_index rigidbody_item;;
      rigidbodies_for items' (S rigidbody_count)
  end.

Definition btVector3_of (v : Vector3f) : btVector3 := mkbtVector3 (x v) (y v) (z v).

(** The six [if (... != 0.0f) { enableSpring; setStiffness }] statements. *)
Definition set_springs (joint_item : Joint) (constraint : btGeneric6DofSpringConstraint)
    : btGeneric6DofSpringConstraint :=
  let constraint :=
    if f32_ne_zero (x (position_spring joint_item)) then
      setStiffness (enableSpring constraint 0 true) 0 (x (position_spring joint_item))
    else constraint in
  let constraint :=
    if f32_ne_zero (y (position_spring joint_item)) then
      setStiffness (enableSpring constraint 1 true) 1 (y (position_spring joint_item))
    else constraint in
  let constraint :=
    if f32_ne_zero (z (position_spring joint_item)) then
      setStiffness (enableSpring constraint 2 true) 2
        (f32_neg (z (position_spring joint_item)))
    else constraint in
  let constraint :=
    if f32_ne_zero (x (rotation_spring joint_item)) then
      setStiffness (enableSpring constraint 3 true) 3 (x (rotation_spring joint_item))
    else constraint in
  let constraint :=
    if f32_ne_zero (y (rotation_spring joint_item)) then
      setStiffness (enableSpring constraint 4 true) 4 (y (rotation_spring joint_item))
    else constraint in
  let constraint :=
    if f32_ne_zero (z (rotation_spring joint_item)) then
      setStiffness (enableSpring constraint 5 true) 5 (z (rotation_spring joint_item))
    else constraint in
  constraint.

(** The constraint built for a joint between two bodies of the world. *)
Definition make_constraint (joint_item : Joint) (transform : btTransformExpr)
    (rigidbody_a rigidbody_b : RigidBodyData) : btGeneric6DofSpringConstraint :=
  let inverse_a :=
    transform_inverse (transform_value (m_worldTransform (rigidbody rigidbody_a))) in
  let inverse_b :=
    transform_inverse (transform_value (m_worldTransform (rigidbody rigidbody_b))) in
  let inverse_a := transform_mul inverse_a transform in
  let inverse_b := transform_mul inverse_b transform in
  let constraint :=
    btGeneric6DofSpringConstraint_new
      (rigidbody_get (N.to_nat (rigidbody_a_index joint_item)))
      (rigidbody_get (N.to_nat (rigidbody_b_index joint_item)))
      inverse_a inverse_b true in
  let constraint := setLinearLowerLimit constraint (btVector3_of (position_min joint_item)) in
  let constraint := setLinearUpperLimit constraint (btVector3_of (position_max joint_item)) in
  let constraint := setAngularLowerLimit constraint (btVector3_of (rotation_min joint_item)) in
  let constraint := setAngularUpperLimit constraint (btVector3_of (rotation_max joint_item)) in
  set_springs joint_item constraint.

(** The joint's frame: [rotMat.setEulerZYX(rotation)], then [setIdentity],
    [setOrigin(position)], [setBasis(rotMat)]. *)
Definition joint_transform (joint_item : Joint) : btTransformExpr :=
  transform_EulerZYX (btVector3_of (position joint_item))
    (x (rotation joint_item)) (y (rotation joint_item)) (z (rotation joint_item)).

(** Body of the loop over the scene's joints. *)
Definition add_joint (joint_item : Joint) : Ctor unit :=
  let transform := joint_transform joint_item in
  this_rigidbodies ← this_get rigidbodies;
  let rigidbody_a_index := rigidbody_a_index joint_item in
  if (N.of_nat (length this_rigidbodies) <=? rigidbody_a_index)%N then
    Ctor_throw "Invalid rigidbody index"
  else
    let rigidbody_a := this_rigidbodies !!! N.to_nat rigidbody_a_index in
    let rigidbody_b_index := rigidbody_b_index joint_item in
    if (N.of_nat (length this_rigidbodies) <=? rigidbody_b_index)%N then
      Ctor_throw "Invalid rigidbody index"
    else
      let rigidbody_b := this_rigidbodies !!! N.to_nat rigidbody_b_index in
      let constraint := make_constraint joint_item transform rigidbody_a rigidbody_b in
      this_joints ← this_get joints;
      this_set (world_call (addConstraint (joint_get (length this_joints)) true));;
      this_set (joints_push_back constraint).

Fixpoint joints_for (items : list Joint) : Ctor unit :=
  match items with
  | [] => mret tt
  | joint_item :: items' => add_joint joint_item;; joints_for items'
  end.

(** [PhysicsWorld(scene, initial_transform_count, initial_transform)]; the
    two arguments after the scene are the list of the floats they designate.
    Returns the members together with the exception, if one was thrown. *)
Definition PhysicsWorld_new (scene : PhysicsScene) (initial_transform : list f32)
    : PhysicsWorld * Result unit :=
  (let rigidbodies := GetRigidBodies scene in
   buffer ← this_get transform_buffer;
   (if negb (length buffer =? length rigidbodies * 16)%nat then
      Ctor_throw "Transform buffer size does not match rigidbody count"
    else mret tt);;
   rigidbodies_for rigidbodies 0;;
   let joints := GetJoints scene in
   joints_for joints)
  (PhysicsWorld_init initial_transform).

(** ** PhysicsWorld.cpp: the destructor and [Step] *)

Fixpoint removeConstraint_for (items : list btGeneric6DofSpringConstraint) (index : nat)
    (world : list WorldCall) : list WorldCall :=
  match items with
  | [] => world
  | joint :: items' =>
      removeConstraint_for items' (S index) (world ++ [removeConstraint (joint_get index)])
  end.

Fixpoint removeRigidBody_for (items : list RigidBodyData) (index : nat)
    (world : list WorldCall) : list WorldCall :=
  match items with
  | [] => world
  | rigidbody :: items' =>
      removeRigidBody_for items' (S index) (world ++ [removeRigidBody (rigidbody_get index)])
  end.

(** [~PhysicsWorld()]: the calls the destructor body makes on the dynamics
    world, in order. *)
Definition PhysicsWorld_delete (this : PhysicsWorld) : list WorldCall :=
  let world := [removeRigidBody ground_rigidbody_get] in
  let world := removeConstraint_for (joints this) 0 world in
  let world := removeRigidBody_for (rigidbodies this) 0 world in
  world.

(** During [stepSimulation] the engine reaches the transform buffer only
    through the motion states of the bodies it was given. *)
Inductive MotionStateCall : Type :=
  | call_getWorldTransform (index : nat)
  | call_setWorldTransform (index : nat) (world_transform : btTransform).

Definition run_MotionStateCall (bodies : list RigidBodyData) (buffer : list f32)
    (call : MotionStateCall) : list f32 :=
  match call with
  | call_getWorldTransform index => buffer
  | call_setWorldTransform index world_transform =>
      match bodies !! index with
      | Some rigidbody_data =>
          setWorldTransform (motion_state rigidbody_data) world_transform buffer
      | None => buffer
      end
  end.

(** [Step(delta_time, max_sub_steps, fixed_time_step)]; [calls] is what the
    engine chooses to call back during this step.  [max_sub_steps] is a
    [float] here and an [int] in [stepSimulation], so the call converts
    it. *)
Definition Step (this : PhysicsWorld) (delta_time max_sub_steps fixed_time_step : f32)
    (calls : list MotionStateCall) : PhysicsWorld :=
  let this :=
    world_call
      (stepSimulation delta_time (f32_to_int max_sub_steps) fixed_time_step) this in
  set_transform_buffer
    (foldl (run_MotionStateCall (rigidbodies this)) (transform_buffer this) calls)
    this.

(** ** Vocabulary of the statements *)

(** The unsigned 32-bit value stored little-endian at offset [p]. *)
Definition little_endian_at (data : list byte) (p : nat) : N :=
  (byte_at data p + 256 * byte_at data (p + 1) + 65536 * byte_at data (p + 2)
   + 16777216 * byte_at data (p + 3))%N.

(** Three consecutive little-endian values at offset [p]. *)
Definition little_endian_vec3_at (data : list byte) (p : nat) : Vector3f :=
  {| x := little_endian_at data p;
     y := little_endian_at data (p + 4);
     z := little_endian_at data (p + 8) |}.

(** The floats of slot [i] of a transform buffer. *)
Definition slot (buffer : list f32) (i : nat) : list f32 :=
  take 16 (drop (16 * i) buffer).

(** The translation held in slot [i]: floats 12, 13 and 14 of the slot. *)
Definition slot_translation (buffer : list f32) (i : nat) : list f32 :=
  take 3 (drop 12 (slot buffer i)).

(** The spring field component that belongs to constraint axis [axis]:
    [position_spring] x, y, z for axes 0, 1, 2 and [rotation_spring] x, y, z
    for axes 3, 4, 5. *)
Definition spring_component (joint_item : Joint) (axis : nat) : f32 :=
  match axis with
  | 0 => x (position_spring joint_item)
  | 1 => y (position_spring joint_item)
  | 2 => z (position_spring joint_item)
  | 3 => x (rotation_spring joint_item)
  | 4 => y (rotation_spring joint_item)
  | _ => z (rotation_spring joint_item)
  end.

(** A joint with another value in its [type] field. *)
Definition with_type (t : u32) (joint_item : Joint) : Joint :=
  {| type := t;
     rigidbody_a_index := rigidbody_a_index joint_item;
     rigidbody_b_index := rigidbody_b_index joint_item;
     position := position joint_item;
     rotation := rotation joint_item;
     position_min := position_min joint_item;
     position_max := position_max joint_item;
     rotation_min := rotation_min joint_item;
     rotation_max := rotation_max joint_item;
     position_spring := position_spring joint_item;
     rotation_spring := rotation_spring joint_item |}.

(** A joint refers to a rigid body that a scene of [count] bodies lacks. *)
Definition index_out_of_range (count : nat) (joint_item : Joint) : Prop :=
  (N.of_nat count <= rigidbody_a_index joint_item)%N
  ∨ (N.of_nat count <= rigidbody_b_index joint_item)%N.

(** The shape type and the physics mode are enumerators. *)
Definition valid_rigidbody (rigidbody_item : RigidBody) : Prop :=
  (shape_type rigidbody_item < 3)%N ∧ (physics_mode rigidbody_item < 3)%N.

Global Instance valid_rigidbody_dec rigidbody_item :
  Decision (valid_rigidbody rigidbody_item).
Proof. unfold valid_rigidbody. apply _. Defined.

Global Instance index_out_of_range_dec count joint_item :
  Decision (index_out_of_range count joint_item).
Proof. unfold index_out_of_range. apply _. Defined.

(** The states a world goes through once constructed from [scene]: steps of
    the simulation, and in-place writes of the host into the buffer. *)
Inductive reachable (scene : PhysicsScene) : PhysicsWorld → Prop :=
  | reachable_new initial_transform this :
      PhysicsWorld_new scene initial_transform = (this, inr tt) →
      reachable scene this
  | reachable_Step this delta_time max_sub_steps fixed_time_step calls :
      reachable scene this →
      reachable scene (Step this delta_time max_sub_steps fixed_time_step calls)
  | reachable_write this buffer :
      reachable scene this →
      length buffer = length (transform_buffer this) →
      reachable scene (set_transform_buffer buffer this).

(** The scene with the [type] field of every joint replaced. *)
Definition with_types (t : Joint → u32) (scene : PhysicsScene) : PhysicsScene :=
  {| GetRigidBodies := GetRigidBodies scene;
     GetJoints := map (λ joint_item, with_type (t joint_item) joint_item) (GetJoints scene) |}.

(** The motion state class that belongs to a physics mode. *)
Definition motion_state_of_mode (mode : u32) (index : nat) (state : btMotionState) : Prop :=
  (mode = FOLLOW_BONE ∧ state = FollowBoneMotionState index)
  ∨ (mode = PHYSICS ∧ state = PhysicsMotionState index)
  ∨ (mode = PHYSICS_PLUS_BONE ∧ state = PhysicsPlusBoneDynamicMotionState index).

(** Orders on the removals in a sequence of calls on the dynamics world. *)
Definition constraints_removed_before_bodies (calls : list WorldCall) : Prop :=
  ∀ p q c i,
    calls !! p = Some (removeConstraint c) →
    calls !! q = Some (removeRigidBody (rigidbody_get i)) →
    p < q.

Definition bodies_removed_before_ground (calls : list WorldCall) : Prop :=
  ∀ p q i,
    calls !! p = Some (removeRigidBody (rigidbody_get i)) →
    calls !! q = Some (removeRigidBody ground_rigidbody_get) →
    p < q.

Definition ground_removed_first (calls : list WorldCall) : Prop :=
  ∀ p, calls !! p = Some (removeRigidBody ground_rigidbody_get) ↔ p = 0.

(** What the constructor stores for scene body [index] when it gets that
    far: the motion state of its mode, and an engine body created from the
    decoded mass, the inertia of the effective mass, and the transform found
    in the body's slot. *)
Definition rigidbody_built (buffer : list f32) (index : nat) (rigidbody_item : RigidBody)
    (rigidbody_data : RigidBodyData) : Prop :=
  let info := constructionInfo (rigidbody rigidbody_data) in
  let effective_mass :=
    if (physics_mode rigidbody_item =? FOLLOW_BONE)%N then f32_0_0
    else mass rigidbody_item in
  motion_state_of_mode (physics_mode rigidbody_item) index (motion_state rigidbody_data)
  ∧ m_motionState info = motion_state rigidbody_data
  ∧ m_collisionShape info = shape rigidbody_data
  ∧ m_mass info = mass rigidbody_item
  ∧ m_localInertia info =
      (if f32_ne_zero effective_mass
       then calculateLocalInertia (shape rigidbody_data) effective_mass
       else inertia_vector (mkbtVector3 f32_0_0 f32_0_0 f32_0_0))
  ∧ m_worldTransform (rigidbody rigidbody_data) = setFromOpenGLMatrix buffer (index * 16).

(** The constraint the constructor builds for a joint over the bodies. *)
Definition constraint_of (bodies : list RigidBodyData) (joint_item : Joint)
    : btGeneric6DofSpringConstraint :=
  make_constraint joint_item (joint_transform joint_item)
    (bodies !!! N.to_nat (rigidbody_a_index joint_item))
    (bodies !!! N.to_nat (rigidbody_b_index joint_item)).

(** What every reachable world keeps: sixteen floats per scene body, and for
    each scene body the motion state of its mode, bound to its own index. *)
Definition world_invariant (scene : PhysicsScene) (this : PhysicsWorld) : Prop :=
  length (transform_buffer this) = length (GetRigidBodies scene) * 16
  ∧ length (rigidbodies this) = length (GetRigidBodies scene)
  ∧ ∀ i rigidbody_item, GetRigidBodies scene !! i = Some rigidbody_item →
      ∃ rigidbody_data,
        rigidbodies this !! i = Some rigidbody_data
        ∧ motion_state_of_mode (physics_mode rigidbody_item) i
            (motion_state rigidbody_data).

(** ** Sample inputs *)

(** One rigid-body record: group 1, mask 0xFFFF, a sphere of radius 1.0 in
    mode FollowBone, mass 1.0, dampings and friction 0.5. *)
Definition sample_rigidbody_bytes : list byte :=
  [ x01; x00; x00; x00;   xff; xff; x00; x00;
    x00; x00; x00; x00;   x00; x00; x00; x00;
    x00; x00; x80; x3f;   x00; x00; x00; x00;   x00; x00; x00; x00;
    x00; x00; x00; x00;   x00; x00; x00; x00;   x00; x00; x00; x00;
    x00; x00; x00; x00;   x00; x00; x00; x00;   x00; x00; x00; x00;
    x00; x00; x80; x3f;
    x00; x00; x00; x3f;   x00; x00; x00; x3f;
    x00; x00; x00; x00;   x00; x00; x00; x3f ]%byte.

Definition sample_rigidbody (shape mode : u32) : RigidBody :=
  {| collision_group := 1%N;
     collision_mask := 0xFFFF%N;
     shape_type := shape;
     shape_size := mkVector3f f32_1_0 f32_0_0 f32_0_0;
     shape_position := mkVector3f f32_0_0 f32_0_0 f32_0_0;
     shape_rotation := mkVector3f f32_0_0 f32_0_0 f32_0_0;
     mass := f32_1_0;
     move_attenuation := f32_0_5;
     rotation_damping := f32_0_5;
     repulsion := f32_0_0;
     friction_force := f32_0_5;
     physics_mode := mode |}.

(** The literals [2.0f] and [3.0f]. *)
Definition f32_2_0 : f32 := 0x40000000%N.
Definition f32_3_0 : f32 := 0x40400000%N.

(** A joint between bodies [a] and [b] with springs 2.0 on linear x, 3.0 on
    linear z and 2.0 on angular y; its type field is 7. *)
Definition sample_joint (a b : u32) : Joint :=
  {| type := 7%N;
     rigidbody_a_index := a;
     rigidbody_b_index := b;
     position := mkVector3f f32_0_0 f32_1_0 f32_0_0;
     rotation := mkVector3f f32_0_0 f32_0_0 f32_0_0;
     position_min := mkVector3f f32_0_0 f32_0_0 f32_0_0;
     position_max := mkVector3f f32_0_0 f32_0_0 f32_0_0;
     rotation_min := mkVector3f f32_0_0 f32_0_0 f32_0_0;
     rotation_max := mkVector3f f32_0_0 f32_0_0 f32_0_0;
     position_spring := mkVector3f f32_2_0 f32_0_0 f32_3_0;
     rotation_spring := mkVector3f f32_0_0 f32_2_0 f32_0_0 |}.

(** One slot: the identity rotation and the translation (2.0, 3.0, 0.0). *)
Definition sample_transform : list f32 :=
  [ f32_1_0; f32_0_0; f32_0_0; f32_0_0;
    f32_0_0; f32_1_0; f32_0_0; f32_0_0;
    f32_0_0; f32_0_0; f32_1_0; f32_0_0;
    f32_2_0; f32_3_0; f32_0_0; f32_1_0 ].

(** A quarter turn about the z axis, at the origin. *)
Definition sample_rotation : btTransform :=
  {| getBasis :=
       {| m_el0 := mkbtVector3 f32_0_0 (f32_neg f32_1_0) f32_0_0;
          m_el1 := mkbtVector3 f32_1_0 f32_0_0 f32_0_0;
          m_el2 := mkbtVector3 f32_0_0 f32_0_0 f32_1_0 |};
     getOrigin := mkbtVector3 f32_0_0 f32_0_0 f32_0_0 |}.

Definition sample_scene (shape mode : u32) (joints : list Joint) : PhysicsScene :=
  {| GetRigidBodies := [sample_rigidbody shape mode]; GetJoints := joints |}.

(** The world constructed from a sample scene over one sample slot. *)
Definition sample_world (shape mode : u32) (joints : list Joint) : PhysicsWorld :=
  (PhysicsWorld_new (sample_scene shape mode joints) sample_transform).1.

(** ** binding.cpp

    The entry points that create a scene and a world.  A [jobject] that
    should be a byte buffer is [None] for [nullptr], and otherwise a buffer
    that is direct or not; a returned [jlong] is [None] for [0] and otherwise
    the object the handle points to.  The [ThrowNew] calls made on the
    environment are returned in order. *)

Inductive ByteBuffer : Type :=
  | heap_ByteBuffer (bytes : list byte)
  | direct_ByteBuffer (bytes : list byte).

Abbreviation jobject := (option ByteBuffer) (only parsing).

Inductive Throwable : Type :=
  | NullPointerException (message : string)
  | IllegalArgumentException (message : string).

(** The capacity in bytes, or [-1] for a buffer that is not direct. *)
Definition GetDirectBufferCapacity (buf : ByteBuffer) : Z :=
  match buf with
  | heap_ByteBuffer _ => (-1)%Z
  | direct_ByteBuffer bytes => Z.of_nat (length bytes)
  end.

(** The memory a direct buffer designates. *)
Definition GetDirectBufferAddress (buf : ByteBuffer) : list byte :=
  match buf with
  | heap_ByteBuffer _ => []
  | direct_ByteBuffer bytes => bytes
  end.

Definition createPhysicsScene (rigidbodies joints : jobject)
    : list Throwable * option PhysicsScene :=
  match rigidbodies with
  | None => ([NullPointerException "Rigidbodies cannot be null"], None)
  | Some rigidbodies =>
      match joints with
      | None => ([NullPointerException "Joints cannot be null"], None)
      | Some joints =>
          let rigidbodies_size := GetDirectBufferCapacity rigidbodies in
          if (rigidbodies_size =? -1)%Z then
            ([IllegalArgumentException "Rigidbodies buffer is not direct buffer"], None)
          else
            let rigidbodies_ptr := GetDirectBufferAddress rigidbodies in
            let joints_size := GetDirectBufferCapacity joints in
            if (joints_size =? -1)%Z then
              ([IllegalArgumentException "Joints buffer is not direct buffer"], None)
            else
              let joints_ptr := GetDirectBufferAddress joints in
              match PhysicsScene_new rigidbodies_ptr joints_ptr with
              | inr physics_scene => ([], Some physics_scene)
              | inl (InvalidArgument what) => ([IllegalArgumentException what], None)
              end
      end
  end.

(** [reinterpret_cast<float*>(ptr)[0 .. count)]: float [k] is made of the
    four bytes at [4 * k]. *)
Definition floats_at (ptr : list byte) (count : nat) : list f32 :=
  map (λ k, CopyField ptr (4 * k)) (seq 0 count).

(** [physics_scene] is the scene its handle points to; [initial_transform]
    is not checked against [nullptr] and is taken to be a buffer.  After the
    [ThrowNew] for a size that is not a multiple of 4 the function goes on. *)
Definition createPhysicsWorld (physics_scene : PhysicsScene) (initial_transform : ByteBuffer)
    : list Throwable * option PhysicsWorld :=
  let initial_transform_size := GetDirectBufferCapacity initial_transform in
  if (initial_transform_size =? -1)%Z then
    ([IllegalArgumentException "Initial transform buffer is not direct buffer"], None)
  else
    let thrown :=
      if negb (initial_transform_size mod 4 =? 0)%Z then
        [IllegalArgumentException "Initial transform buffer size is not a multiple of 4"]
      else [] in
    let initial_transform_ptr := GetDirectBufferAddress initial_transform in
    let initial_transform_count := Z.to_nat (initial_transform_size / 4) in
    match PhysicsWorld_new physics_scene
            (floats_at initial_transform_ptr initial_transform_count) with
    | (physics_world, inr _) => (thrown, Some physics_world)
    | (_, inl (InvalidArgument what)) => (thrown ++ [IllegalArgumentException what], None)
    end.

(** ** More vocabulary *)

(** The four bytes of a 32-bit value, least significant first. *)
Definition little_endian_bytes (v : N) : list byte :=
  map (λ k, default "000"%byte (Byte.of_N ((v / 256 ^ k) mod 256)%N)) [0; 1; 2; 3]%N.

Definition vec3_bytes (v : Vector3f) : list byte :=
  little_endian_bytes (x v) ++ little_endian_bytes (y v) ++ little_endian_bytes (z v).

(** The 72-byte record of a rigid body, in the order of the wire layout. *)
Definition rigidbody_record (r : RigidBody) : list byte :=
  little_endian_bytes (collision_group r) ++ little_endian_bytes (collision_mask r)
  ++ little_endian_bytes (shape_type r) ++ little_endian_bytes (physics_mode r)
  ++ vec3_bytes (shape_size r) ++ vec3_bytes (shape_position r)
  ++ vec3_bytes (shape_rotation r)
  ++ little_endian_bytes (mass r) ++ little_endian_bytes (move_attenuation r)
  ++ little_endian_bytes (rotation_damping r) ++ little_endian_bytes (repulsion r)
  ++ little_endian_bytes (friction_force r).

(** The 108-byte record of a joint, in the order of the wire layout. *)
Definition joint_record (j : Joint) : list byte :=
  little_endian_bytes (type j) ++ little_endian_bytes (rigidbody_a_index j)
  ++ little_endian_bytes (rigidbody_b_index j)
  ++ vec3_bytes (position j) ++ vec3_bytes (rotation j)
  ++ vec3_bytes (position_min j) ++ vec3_bytes (position_max j)
  ++ vec3_bytes (rotation_min j) ++ vec3_bytes (rotation_max j)
  ++ vec3_bytes (position_spring j) ++ vec3_bytes (rotation_spring j).

Definition is_32bit (v : N) : Prop := (v < 2 ^ 32)%N.

Definition vec3_32bit (v : Vector3f) : Prop :=
  is_32bit (x v) ∧ is_32bit (y v) ∧ is_32bit (z v).

(** Every field of the record fits its four bytes. *)
Definition rigidbody_32bit (r : RigidBody) : Prop :=
  is_32bit (collision_group r) ∧ is_32bit (collision_mask r)
  ∧ is_32bit (shape_type r) ∧ is_32bit (physics_mode r)
  ∧ vec3_32bit (shape_size r) ∧ vec3_32bit (shape_position r)
  ∧ vec3_32bit (shape_rotation r)
  ∧ is_32bit (mass r) ∧ is_32bit (move_attenuation r)
  ∧ is_32bit (rotation_damping r) ∧ is_32bit (repulsion r)
  ∧ is_32bit (friction_force r).

Definition joint_32bit (j : Joint) : Prop :=
  is_32bit (type j) ∧ is_32bit (rigidbody_a_index j) ∧ is_32bit (rigidbody_b_index j)
  ∧ vec3_32bit (position j) ∧ vec3_32bit (rotation j)
  ∧ vec3_32bit (position_min j) ∧ vec3_32bit (position_max j)
  ∧ vec3_32bit (rotation_min j) ∧ vec3_32bit (rotation_max j)
  ∧ vec3_32bit (position_spring j) ∧ vec3_32bit (rotation_spring j).

(** A rigid body with the four fields the constructor does not read taken
    from another one. *)
Definition with_unread_fields (other r : RigidBody) : RigidBody :=
  {| collision_group := collision_group other;
     collision_mask := collision_mask other;
     shape_type := shape_type r;
     shape_size := shape_size r;
     shape_position := shape_position other;
     shape_rotation := shape_rotation other;
     mass := mass r;
     move_attenuation := move_attenuation r;
     rotation_damping := rotation_damping r;
     repulsion := repulsion r;
     friction_force := friction_force r;
     physics_mode := physics_mode r |}.

(** The collision shape that belongs to a shape type and a size. *)
Definition shape_of_type (shape : u32) (size : Vector3f) (s : btCollisionShape) : Prop :=
  (shape = SPHERE ∧ s = btSphereShape (x size))
  ∨ (shape = BOX ∧ s = btBoxShape (mkbtVector3 (x size) (y size) (z size)))
  ∨ (shape = CAPSULE ∧ s = btCapsuleShape (x size) (y size)).

(** What the constructor stores for a scene body besides [rigidbody_built]:
    the shape of its type, the material parameters, and the engine state set
    after the body was added. *)
Definition rigidbody_parameters (rigidbody_item : RigidBody) (rigidbody_data : RigidBodyData)
    : Prop :=
  let info := constructionInfo (rigidbody rigidbody_data) in
  shape_of_type (shape_type rigidbody_item) (shape_size rigidbody_item)
    (shape rigidbody_data)
  ∧ m_linearDamping info = move_attenuation rigidbody_item
  ∧ m_angularDamping info = rotation_damping rigidbody_item
  ∧ m_restitution info = repulsion rigidbody_item
  ∧ m_friction info = friction_force rigidbody_item
  ∧ m_additionalDamping info = true
  ∧ m_activationState1 (rigidbody rigidbody_data) = DISABLE_DEACTIVATION
  ∧ N.testbit (getCollisionFlags (rigidbody rigidbody_data)) 1
    = (physics_mode rigidbody_item =? FOLLOW_BONE)%N.

(** The bodies and constraints a sequence of calls adds to, and removes
    from, the dynamics world. *)
Definition added_rigidbodies (calls : list WorldCall) : list btRigidBodyPtr :=
  omap (λ call, match call with addRigidBody body => Some body | _ => None end) calls.

Definition removed_rigidbodies (calls : list WorldCall) : list btRigidBodyPtr :=
  omap (λ call, match call with removeRigidBody body => Some body | _ => None end) calls.

Definition added_constraints (calls : list WorldCall) : list btTypedConstraintPtr :=
  omap (λ call, match call with addConstraint c _ => Some c | _ => None end) calls.

Definition removed_constraints (calls : list WorldCall) : list btTypedConstraintPtr :=
  omap (λ call, match call with removeConstraint c => Some c | _ => None end) calls.

(** The bodies whose motion state a sequence of callbacks writes through. *)
Definition written_bodies (calls : list MotionStateCall) : list nat :=
  omap (λ call, match call with
                | call_setWorldTransform index _ => Some index
                | call_getWorldTransform _ => None
                end) calls.

(** Two sample joint records: the sample joint between bodies 0 and 0, and
    one with other indices. *)
Definition sample_joint_bytes : list byte :=
  joint_record (sample_joint 0 0) ++ joint_record (sample_joint 1 2).

(** Two slots holding the sample transform, and a scene of two bodies. *)
Definition sample_transform2 : list f32 := sample_transform ++ sample_transform.

Definition sample_scene2 (shape1 mode1 shape2 mode2 : u32) (joints : list Joint)
    : PhysicsScene :=
  {| GetRigidBodies := [sample_rigidbody shape1 mode1; sample_rigidbody shape2 mode2];
     GetJoints := joints |}.

Definition sample_world2 (shape1 mode1 shape2 mode2 : u32) (joints : list Joint)
    : PhysicsWorld :=
  (PhysicsWorld_new (sample_scene2 shape1 mode1 shape2 mode2 joints) sample_transform2).1.

(** The floats a write through a motion state leaves in the slot of its
    body. *)
Definition written_slot (state : btMotionState) (world_transform : btTransform)
    (buffer : list f32) : list f32 :=
  match state with
  | FollowBoneMotionState i => slot buffer i
  | PhysicsMotionState i => OpenGLMatrix world_transform
  | PhysicsPlusBoneDynamicMotionState i =>
      OpenGLMatrix
        {| getBasis := getBasis world_transform;
           getOrigin := getOrigin (setFromOpenGLMatrix (slot buffer i) 0) |}
  | btDefaultMotionState _ => []
  end.

(** * Properties *)

(** ** The decoder *)

Section Decoder.

Implicit Types (data : list byte) (p i n : nat).

Lemma DeserializeRigidbodies_cases data :
  DeserializeRigidbodies data =
    if decide (length data = 0) then inl EmptyInput
    else if decide (length data mod 72 = 0)
         then inr (rigidbodies_loop data (length data / 72) 0 [])
         else inl InvalidSize.
Proof.
  unfold DeserializeRigidbodies, rigidbody_size, throw, EmptyInput, InvalidSize.
  destruct (Nat.eqb_spec (length data) 0) as [Hz|Hz].
  - rewrite decide_True by done. reflexivity.
  - rewrite decide_False by done.
    destruct (Nat.eqb_spec (length data mod 72) 0) as [Hm|Hm]; simpl.
    + rewrite decide_True by done. reflexivity.
    + rewrite decide_False by done. reflexivity.
Qed.

Lemma DeserializeJoints_cases data :
  DeserializeJoints data =
    if decide (length data mod 108 = 0)
    then inr (joints_loop data (length data / 108) 0 [])
    else inl InvalidJointSize.
Proof.
  unfold DeserializeJoints, joint_size, throw, InvalidJointSize.
  destruct (Nat.eqb_spec (length data mod 108) 0) as [Hm|Hm]; simpl.
  - rewrite decide_True by done. reflexivity.
  - rewrite decide_False by done. reflexivity.
Qed.

(** C2. Decoding rigid bodies fails exactly on a buffer of length zero (with
    the empty-input error) or of a length that is not a multiple of 72 (with
    the invalid-size error); decoding joints fails exactly on a length that
    is not a multiple of 108, and an empty joint buffer decodes to the empty
    list.  A failure carries the error alone: constructing a scene fails as
    soon as one of the two decodings fails, whatever the other one decoded. *)
Theorem decode_fails_iff_bad_length (rigidbody_bytes joint_bytes : list byte) :
  (DeserializeRigidbodies rigidbody_bytes = inl EmptyInput
     ↔ length rigidbody_bytes = 0)
  ∧ (DeserializeRigidbodies rigidbody_bytes = inl InvalidSize
     ↔ length rigidbody_bytes ≠ 0 ∧ length rigidbody_bytes mod 72 ≠ 0)
  ∧ ((∃ e, DeserializeRigidbodies rigidbody_bytes = inl e)
     ↔ length rigidbody_bytes = 0 ∨ length rigidbody_bytes mod 72 ≠ 0)
  ∧ (DeserializeJoints joint_bytes = inl InvalidJointSize
     ↔ length joint_bytes mod 108 ≠ 0)
  ∧ ((∃ e, DeserializeJoints joint_bytes = inl e)
     ↔ length joint_bytes mod 108 ≠ 0)
  ∧ DeserializeJoints [] = inr []
  ∧ ((∃ e, PhysicsScene_new rigidbody_bytes joint_bytes = inl e)
     ↔ (∃ e, DeserializeRigidbodies rigidbody_bytes = inl e)
       ∨ (∃ e, DeserializeJoints joint_bytes = inl e)).
Proof.
  unfold PhysicsScene_new.
  rewrite !DeserializeRigidbodies_cases, !DeserializeJoints_cases.
  unfold EmptyInput, InvalidSize, InvalidJointSize.
  destruct (decide (length rigidbody_bytes = 0)) as [Hz|Hz];
    destruct (decide (length rigidbody_bytes `mod` 72 = 0)) as [Hm|Hm];
    destruct (decide (length joint_bytes `mod` 108 = 0)) as [Hj|Hj];
    repeat split; try done; try tauto; eauto;
    try (intros [e He]; done);
    try (intros [[e He]|[e He]]; done).
Qed.

Lemma byte_at_bound data p : (byte_at data p < 256)%N.
Proof.
  unfold byte_at.
  pose proof (Byte.to_N_bounded (default "000"%byte (data !! p))). lia.
Qed.

(** Bits below [n] and a multiple of [2^n] do not overlap. *)
Lemma lor_low_high (a c n : N) :
  (a < 2 ^ n)%N → N.lor a (c * 2 ^ n) = (a + c * 2 ^ n)%N.
Proof.
  intros Ha.
  assert (Hdisj : N.land a (c * 2 ^ n) = 0%N).
  { apply N.bits_inj_0. intros k. rewrite N.land_spec.
    destruct (N.lt_ge_cases k n) as [Hk|Hk].
    - rewrite N.mul_pow2_bits_low by done. apply andb_false_r.
    - destruct (N.eq_dec a 0%N) as [->|Hnz].
      + rewrite N.bits_0. reflexivity.
      + rewrite (N.bits_above_log2 a k); [reflexivity|].
        apply N.lt_le_trans with n; [|done].
        apply N.log2_lt_pow2; [lia|done]. }
  rewrite (N.add_nocarry_lxor _ _ Hdisj). symmetry. by apply N.lxor_lor.
Qed.

(** On a little-endian host [CopyField] reads the little-endian value. *)
Lemma CopyField_little_endian data p :
  CopyField data p = little_endian_at data p.
Proof.
  unfold CopyField, little_endian_at.
  pose proof (byte_at_bound data p) as H0.
  pose proof (byte_at_bound data (p + 1)) as H1.
  pose proof (byte_at_bound data (p + 2)) as H2.
  pose proof (byte_at_bound data (p + 3)) as H3.
  generalize dependent (byte_at data p). intros b0 H0.
  generalize dependent (byte_at data (p + 1)). intros b1 H1.
  generalize dependent (byte_at data (p + 2)). intros b2 H2.
  generalize dependent (byte_at data (p + 3)). intros b3 H3.
  rewrite !N.shiftl_mul_pow2.
  rewrite (lor_low_high (b2 * 2 ^ 16) b3 24)
    by (change (2 ^ 16)%N with 65536%N; change (2 ^ 24)%N with 16777216%N; lia).
  replace (b2 * 2 ^ 16 + b3 * 2 ^ 24)%N with ((b2 + b3 * 256) * 2 ^ 16)%N
    by (change (2 ^ 16)%N with 65536%N; change (2 ^ 24)%N with 16777216%N; lia).
  rewrite (lor_low_high (b1 * 2 ^ 8) (b2 + b3 * 256) 16)
    by (change (2 ^ 8)%N with 256%N; change (2 ^ 16)%N with 65536%N; lia).
  replace (b1 * 2 ^ 8 + (b2 + b3 * 256) * 2 ^ 16)%N
    with ((b1 + b2 * 256 + b3 * 65536) * 2 ^ 8)%N
    by (change (2 ^ 8)%N with 256%N; change (2 ^ 16)%N with 65536%N; lia).
  rewrite (lor_low_high b0 _ 8) by (change (2 ^ 8)%N with 256%N; lia).
  change (2 ^ 8)%N with 256%N. lia.
Qed.

Lemma CopyVector3fField_little_endian data p :
  CopyVector3fField data p = little_endian_vec3_at data p.
Proof.
  unfold CopyVector3fField, little_endian_vec3_at.
  rewrite !CopyField_little_endian, Nat.add_0_r. reflexivity.
Qed.

(** The loop appends one record per remaining index, in order. *)
Lemma rigidbodies_loop_spec data remaining i (acc : list RigidBody) :
  rigidbodies_loop data remaining i acc =
  acc ++ map (λ k, read_rigidbody data (k * 72)) (seq i remaining).
Proof.
  revert i acc. induction remaining as [|r IH]; intros i acc; simpl.
  - by rewrite app_nil_r.
  - rewrite IH, <- app_assoc. reflexivity.
Qed.

Lemma joints_loop_spec data remaining i (acc : list Joint) :
  joints_loop data remaining i acc =
  acc ++ map (λ k, read_joint data (k * 108)) (seq i remaining).
Proof.
  revert i acc. induction remaining as [|r IH]; intros i acc; simpl.
  - by rewrite app_nil_r.
  - rewrite IH, <- app_assoc. reflexivity.
Qed.

(** C3. A buffer of [72 * n] bytes with [n >= 1] decodes to exactly [n]
    records, and every field of record [i] is the little-endian value found
    at the field's fixed offset inside the [i]-th chunk of 72 bytes. *)
Theorem decode_rigidbodies_layout data n :
  1 ≤ n →
  length data = 72 * n →
  ∃ decoded,
    DeserializeRigidbodies data = inr decoded
    ∧ length decoded = n
    ∧ ∀ i, i < n →
        ∃ r, decoded !! i = Some r
          ∧ collision_group r = little_endian_at data (72 * i + 0)
          ∧ collision_mask r = little_endian_at data (72 * i + 4)
          ∧ shape_type r = little_endian_at data (72 * i + 8)
          ∧ physics_mode r = little_endian_at data (72 * i + 12)
          ∧ shape_size r = little_endian_vec3_at data (72 * i + 16)
          ∧ shape_position r = little_endian_vec3_at data (72 * i + 28)
          ∧ shape_rotation r = little_endian_vec3_at data (72 * i + 40)
          ∧ mass r = little_endian_at data (72 * i + 52)
          ∧ move_attenuation r = little_endian_at data (72 * i + 56)
          ∧ rotation_damping r = little_endian_at data (72 * i + 60)
          ∧ repulsion r = little_endian_at data (72 * i + 64)
          ∧ friction_force r = little_endian_at data (72 * i + 68).
Proof.
  intros Hn Hlen.
  rewrite DeserializeRigidbodies_cases.
  assert (Hmod : length data mod 72 = 0).
  { rewrite Hlen, Nat.mul_comm. apply Nat.Div0.mod_mul. }
  assert (Hdiv : length data / 72 = n).
  { rewrite Hlen, Nat.mul_comm. apply Nat.div_mul. lia. }
  rewrite decide_False by lia. rewrite decide_True by done.
  rewrite Hdiv, rigidbodies_loop_spec. simpl app.
  eexists. split; [reflexivity|]. split.
  { by rewrite length_map, length_seq. }
  intros i Hi.
  exists (read_rigidbody data (i * 72)). split.
  { rewrite list_lookup_fmap, lookup_seq_lt by done. reflexivity. }
  replace (72 * i) with (i * 72) by lia.
  unfold read_rigidbody, CopyEnumField; simpl.
  rewrite !CopyField_little_endian, !CopyVector3fField_little_endian.
  repeat split.
Qed.

(** The sample record is one chunk of 72 bytes. *)
Lemma decode_rigidbodies_layout_witness :
  1 ≤ 1
  ∧ length sample_rigidbody_bytes = 72 * 1
  ∧ ∃ decoded r,
      DeserializeRigidbodies sample_rigidbody_bytes = inr decoded
      ∧ length decoded = 1
      ∧ decoded !! 0 = Some r
      ∧ collision_mask r = little_endian_at sample_rigidbody_bytes 4
      ∧ mass r = little_endian_at sample_rigidbody_bytes 52.
Proof.
  split; [exact (le_n 1)|]. split; [reflexivity|].
  destruct (decode_rigidbodies_layout sample_rigidbody_bytes 1 (le_n 1) eq_refl)
    as (decoded & Hdecoded & Hlength & Hfields).
  destruct (Hfields 0 (le_n 1))
    as (r & Hr & _ & Hmask & _ & _ & _ & _ & _ & Hmass & _).
  exists decoded, r. repeat split; assumption.
Defined.

End Decoder.

(** ** The constructor *)

Section Constructor.

Implicit Types (this : PhysicsWorld) (scene : PhysicsScene) (buffer : list f32).

Lemma add_rigidbody_ok index rigidbody_item this :
  valid_rigidbody rigidbody_item →
  ∃ rigidbody_data,
    add_rigidbody index rigidbody_item this =
      (rigidbodies_push_back rigidbody_data
         (world_call (addRigidBody (rigidbody_get index)) this), inr tt)
    ∧ rigidbody_built (transform_buffer this) index rigidbody_item rigidbody_data.
Proof.
  intros [Hshape Hmode].
  destruct rigidbody_item as [g m st ss sp sr ms ma rd rp ff pm]; simpl in *.
  assert (Hst : st = SPHERE ∨ st = BOX ∨ st = CAPSULE)
    by (unfold SPHERE, BOX, CAPSULE; lia).
  assert (Hpm : pm = FOLLOW_BONE ∨ pm = PHYSICS ∨ pm = PHYSICS_PLUS_BONE)
    by (unfold FOLLOW_BONE, PHYSICS, PHYSICS_PLUS_BONE; lia).
  unfold add_rigidbody, rigidbody_built, motion_state_of_mode.
  destruct Hst as [-> | [-> | ->]]; destruct Hpm as [-> | [-> | ->]];
    unfold_ctor; simpl; eexists; (split; [reflexivity|]); simpl;
    repeat split; auto.
Qed.

Lemma add_rigidbody_throws index rigidbody_item this :
  ¬ valid_rigidbody rigidbody_item →
  ∃ e, add_rigidbody index rigidbody_item this = (this, inl e)
       ∧ (e = InvalidShape ∨ e = InvalidPhysicsMode).
Proof.
  intros Hinvalid.
  destruct rigidbody_item as [g m st ss sp sr ms ma rd rp ff pm].
  unfold valid_rigidbody in Hinvalid; simpl in Hinvalid.
  unfold add_rigidbody; simpl.
  destruct (N.eqb_spec st BOX) as [->|Hbox];
    [|destruct (N.eqb_spec st SPHERE) as [->|Hsphere];
      [|destruct (N.eqb_spec st CAPSULE) as [->|Hcapsule]]].
  4: { unfold_ctor. eexists; split; [reflexivity|]. by left. }
  all: destruct (N.eqb_spec pm FOLLOW_BONE) as [->|Hfollow];
    [exfalso; apply Hinvalid; unfold BOX, SPHERE, CAPSULE, FOLLOW_BONE; lia|];
    destruct (N.eqb_spec pm PHYSICS) as [->|Hphysics];
    [exfalso; apply Hinvalid; unfold BOX, SPHERE, CAPSULE, PHYSICS; lia|];
    destruct (N.eqb_spec pm PHYSICS_PLUS_BONE) as [->|Hplus];
    [exfalso; apply Hinvalid; unfold BOX, SPHERE, CAPSULE, PHYSICS_PLUS_BONE; lia|];
    unfold_ctor; eexists; (split; [reflexivity|]); by right.
Qed.

Lemma rigidbodies_for_ok items k this :
  Forall valid_rigidbody items →
  ∃ this' added,
    rigidbodies_for items k this = (this', inr tt)
    ∧ joints this' = joints this
    ∧ transform_buffer this' = transform_buffer this
    ∧ rigidbodies this' = rigidbodies this ++ added
    ∧ length added = length items
    ∧ ∀ j rigidbody_item, items !! j = Some rigidbody_item →
        ∃ rigidbody_data,
          added !! j = Some rigidbody_data
          ∧ rigidbody_built (transform_buffer this) (k + j) rigidbody_item rigidbody_data.
Proof.
  intros Hvalid. revert k this.
  induction Hvalid as [|item items Hitem _ IH]; intros k this.
  - exists this, []. simpl. rewrite app_nil_r. repeat split; try done.
  - destruct (add_rigidbody_ok k item this Hitem) as (d & Hadd & Hbuilt).
    destruct (IH (S k)
                (rigidbodies_push_back d
                   (world_call (addRigidBody (rigidbody_get k)) this)))
      as (this' & added & Hfor & Hjoints & Hbuffer & Hbodies & Hlen & Hall).
    exists this', (d :: added). simpl.
    unfold mbind, Ctor_bind at 1. rewrite Hadd, Hfor.
    repeat split; try done.
    + rewrite Hbodies. simpl. by rewrite <- app_assoc.
    + simpl. by rewrite Hlen.
    + intros [|j] rigidbody_item Hlookup; simpl in Hlookup.
      * injection Hlookup as <-. exists d. by rewrite Nat.add_0_r.
      * destruct (Hall j rigidbody_item Hlookup) as (d' & Hd' & Hbuilt').
        exists d'. split; [done|].
        by replace (k + S j) with (S k + j) by lia.
Qed.

Lemma rigidbodies_for_throws items k this :
  Exists (λ rigidbody_item, ¬ valid_rigidbody rigidbody_item) items →
  ∃ this' e,
    rigidbodies_for items k this = (this', inl e)
    ∧ (e = InvalidShape ∨ e = InvalidPhysicsMode).
Proof.
  revert k this. induction items as [|item items IH]; intros k this Hex.
  - by apply Exists_nil in Hex.
  - simpl. unfold mbind, Ctor_bind at 1.
    destruct (decide (valid_rigidbody item)) as [Hitem|Hitem].
    + destruct (add_rigidbody_ok k item this Hitem) as (d & -> & _).
      apply IH. apply Exists_cons in Hex as [Hhere|Hlater]; done.
    + destruct (add_rigidbody_throws k item this Hitem) as (e & -> & He).
      by exists this, e.
Qed.

Lemma add_joint_ok joint_item this :
  ¬ index_out_of_range (length (rigidbodies this)) joint_item →
  add_joint joint_item this =
    (joints_push_back (constraint_of (rigidbodies this) joint_item)
       (world_call (addConstraint (joint_get (length (joints this))) true) this),
     inr tt).
Proof.
  unfold index_out_of_range. intros Hin.
  unfold add_joint. unfold_ctor.
  destruct (N.leb_spec (N.of_nat (length (rigidbodies this)))
              (rigidbody_a_index joint_item)) as [Ha|Ha]; [tauto|].
  destruct (N.leb_spec (N.of_nat (length (rigidbodies this)))
              (rigidbody_b_index joint_item)) as [Hb|Hb]; [tauto|].
  reflexivity.
Qed.

Lemma add_joint_throws joint_item this :
  index_out_of_range (length (rigidbodies this)) joint_item →
  add_joint joint_item this = (this, inl InvalidIndex).
Proof.
  unfold index_out_of_range. intros Hout.
  unfold add_joint. unfold_ctor.
  destruct (N.leb_spec (N.of_nat (length (rigidbodies this)))
              (rigidbody_a_index joint_item)) as [Ha|Ha]; [reflexivity|].
  destruct (N.leb_spec (N.of_nat (length (rigidbodies this)))
              (rigidbody_b_index joint_item)) as [Hb|Hb]; [reflexivity|].
  lia.
Qed.

Lemma joints_for_ok items this :
  Forall (λ joint_item,
            ¬ index_out_of_range (length (rigidbodies this)) joint_item) items →
  ∃ this',
    joints_for items this = (this', inr tt)
    ∧ rigidbodies this' = rigidbodies this
    ∧ transform_buffer this' = transform_buffer this
    ∧ joints this' = joints this ++ map (constraint_of (rigidbodies this)) items.
Proof.
  revert this. induction items as [|item items IH]; intros this Hall.
  - exists this. simpl. by rewrite app_nil_r.
  - apply Forall_cons in Hall as [Hitem Hall].
    simpl. unfold mbind, Ctor_bind at 1. rewrite add_joint_ok by done.
    destruct (IH (joints_push_back (constraint_of (rigidbodies this) item)
                    (world_call (addConstraint (joint_get (length (joints this))) true)
                       this)) Hall)
      as (this' & -> & Hbodies & Hbuffer & Hjoints).
    exists this'. repeat split; try done.
    rewrite Hjoints. simpl. by rewrite <- app_assoc.
Qed.

Lemma joints_for_throws items this :
  Exists (index_out_of_range (length (rigidbodies this))) items →
  ∃ this', joints_for items this = (this', inl InvalidIndex).
Proof.
  revert this. induction items as [|item items IH]; intros this Hex.
  - by apply Exists_nil in Hex.
  - simpl. unfold mbind, Ctor_bind at 1.
    destruct (decide (index_out_of_range (length (rigidbodies this)) item))
      as [Hout|Hin].
    + rewrite add_joint_throws by done. by exists this.
    + rewrite add_joint_ok by done. apply IH. simpl.
      apply Exists_cons in Hex as [Hhere|Hlater]; done.
Qed.

(** The constructor is a sequence of three checks. *)
Lemma PhysicsWorld_new_unfold scene buffer :
  PhysicsWorld_new scene buffer =
    if decide (length buffer = length (GetRigidBodies scene) * 16) then
      match rigidbodies_for (GetRigidBodies scene) 0 (PhysicsWorld_init buffer) with
      | (this, inl e) => (this, inl e)
      | (this, inr _) => joints_for (GetJoints scene) this
      end
    else (PhysicsWorld_init buffer, inl SizeMismatch).
Proof.
  unfold PhysicsWorld_new. unfold_ctor. simpl.
  destruct (Nat.eqb_spec (length buffer) (length (GetRigidBodies scene) * 16))
    as [Heq|Hne]; simpl.
  - rewrite decide_True by done. reflexivity.
  - rewrite decide_False by done. reflexivity.
Qed.

Lemma PhysicsWorld_new_ok scene buffer :
  length buffer = length (GetRigidBodies scene) * 16 →
  Forall valid_rigidbody (GetRigidBodies scene) →
  Forall (λ joint_item,
            ¬ index_out_of_range (length (GetRigidBodies scene)) joint_item)
         (GetJoints scene) →
  ∃ this,
    PhysicsWorld_new scene buffer = (this, inr tt)
    ∧ transform_buffer this = buffer
    ∧ length (rigidbodies this) = length (GetRigidBodies scene)
    ∧ (∀ i rigidbody_item, GetRigidBodies scene !! i = Some rigidbody_item →
         ∃ rigidbody_data,
           rigidbodies this !! i = Some rigidbody_data
           ∧ rigidbody_built buffer i rigidbody_item rigidbody_data)
    ∧ joints this = map (constraint_of (rigidbodies this)) (GetJoints scene).
Proof.
  intros Hsize Hvalid Hrange.
  rewrite PhysicsWorld_new_unfold, decide_True by done.
  destruct (rigidbodies_for_ok (GetRigidBodies scene) 0 (PhysicsWorld_init buffer) Hvalid)
    as (this1 & added & -> & Hjoints1 & Hbuffer1 & Hbodies1 & Hlen1 & Hbuilt).
  simpl in Hjoints1, Hbuffer1, Hbodies1, Hbuilt.
  assert (Hrange1 : Forall (λ joint_item,
            ¬ index_out_of_range (length (rigidbodies this1)) joint_item)
            (GetJoints scene)).
  { by rewrite Hbodies1, Hlen1. }
  destruct (joints_for_ok (GetJoints scene) this1 Hrange1)
    as (this & -> & Hbodies & Hbuffer & Hjoints).
  exists this. split; [done|]. split; [congruence|].
  split; [by rewrite Hbodies, Hbodies1|]. split.
  - intros i rigidbody_item Hi. rewrite Hbodies, Hbodies1. by apply Hbuilt.
  - by rewrite Hjoints, Hjoints1, Hbodies.
Qed.

(** Which error the constructor throws is decided in this order: the size of
    the buffer, then the rigid bodies, then the joints. *)
Lemma PhysicsWorld_new_throws scene buffer :
  (length buffer ≠ length (GetRigidBodies scene) * 16 →
   PhysicsWorld_new scene buffer = (PhysicsWorld_init buffer, inl SizeMismatch))
  ∧ (length buffer = length (GetRigidBodies scene) * 16 →
     Exists (λ rigidbody_item, ¬ valid_rigidbody rigidbody_item) (GetRigidBodies scene) →
     ∃ this e, PhysicsWorld_new scene buffer = (this, inl e)
               ∧ (e = InvalidShape ∨ e = InvalidPhysicsMode))
  ∧ (length buffer = length (GetRigidBodies scene) * 16 →
     Forall valid_rigidbody (GetRigidBodies scene) →
     Exists (index_out_of_range (length (GetRigidBodies scene))) (GetJoints scene) →
     ∃ this, PhysicsWorld_new scene buffer = (this, inl InvalidIndex)).
Proof.
  rewrite PhysicsWorld_new_unfold. repeat split.
  - intros Hsize. by rewrite decide_False.
  - intros Hsize Hinvalid. rewrite decide_True by done.
    destruct (rigidbodies_for_throws _ 0 (PhysicsWorld_init buffer) Hinvalid)
      as (this & e & -> & He).
    by exists this, e.
  - intros Hsize Hvalid Hout. rewrite decide_True by done.
    destruct (rigidbodies_for_ok (GetRigidBodies scene) 0 (PhysicsWorld_init buffer) Hvalid)
      as (this1 & added & -> & _ & _ & Hbodies1 & Hlen1 & _).
    simpl in Hbodies1. apply joints_for_throws. by rewrite Hbodies1, Hlen1.
Qed.

(** What a successful construction tells about the scene and the world. *)
Lemma PhysicsWorld_new_inr scene buffer this :
  PhysicsWorld_new scene buffer = (this, inr tt) →
  transform_buffer this = buffer
  ∧ length buffer = length (GetRigidBodies scene) * 16
  ∧ length (rigidbodies this) = length (GetRigidBodies scene)
  ∧ (∀ i rigidbody_item, GetRigidBodies scene !! i = Some rigidbody_item →
       ∃ rigidbody_data,
         rigidbodies this !! i = Some rigidbody_data
         ∧ rigidbody_built buffer i rigidbody_item rigidbody_data)
  ∧ joints this = map (constraint_of (rigidbodies this)) (GetJoints scene).
Proof.
  intros Hnew.
  destruct (PhysicsWorld_new_throws scene buffer) as (Hsize & Hbody & Hjoint).
  destruct (decide (length buffer = length (GetRigidBodies scene) * 16))
    as [Hlen|Hlen]; [|rewrite Hsize in Hnew by done; discriminate].
  destruct (decide (Forall valid_rigidbody (GetRigidBodies scene)))
    as [Hvalid|Hinvalid].
  2: { apply not_Forall_Exists in Hinvalid; [|apply _].
       destruct (Hbody Hlen Hinvalid) as (? & ? & Heq & _).
       rewrite Heq in Hnew. discriminate. }
  destruct (decide (Forall (λ joint_item,
              ¬ index_out_of_range (length (GetRigidBodies scene)) joint_item)
              (GetJoints scene))) as [Hrange|Hout].
  2: { apply not_Forall_Exists in Hout; [|apply _].
       assert (Hex : Exists (index_out_of_range (length (GetRigidBodies scene)))
                       (GetJoints scene)).
       { eapply Exists_impl; [exact Hout|]. simpl. intros j Hj.
         by destruct (decide (index_out_of_range (length (GetRigidBodies scene)) j)). }
       destruct (Hjoint Hlen Hvalid Hex) as (? & Heq).
       rewrite Heq in Hnew. discriminate. }
  destruct (PhysicsWorld_new_ok scene buffer Hlen Hvalid Hrange)
    as (this' & Heq & Hprops).
  rewrite Heq in Hnew. injection Hnew as <-. tauto.
Qed.

(** The engine body of every scene body is created with the decoded mass,
    and with the inertia of the effective mass. *)
Lemma rigidbody_mass_and_inertia scene buffer this i rigidbody_item :
  PhysicsWorld_new scene buffer = (this, inr tt) →
  GetRigidBodies scene !! i = Some rigidbody_item →
  ∃ rigidbody_data,
    rigidbodies this !! i = Some rigidbody_data
    ∧ m_mass (constructionInfo (rigidbody rigidbody_data)) = mass rigidbody_item
    ∧ m_localInertia (constructionInfo (rigidbody rigidbody_data)) =
        if (physics_mode rigidbody_item =? FOLLOW_BONE)%N
        then inertia_vector (mkbtVector3 f32_0_0 f32_0_0 f32_0_0)
        else if f32_ne_zero (mass rigidbody_item)
             then calculateLocalInertia (shape rigidbody_data) (mass rigidbody_item)
             else inertia_vector (mkbtVector3 f32_0_0 f32_0_0 f32_0_0).
Proof.
  intros Hnew Hi.
  destruct (PhysicsWorld_new_inr _ _ _ Hnew) as (_ & _ & _ & Hbuilt & _).
  destruct (Hbuilt i rigidbody_item Hi) as (d & Hd & _ & _ & _ & Hmass & Hinertia & _).
  exists d. repeat split; try done.
  rewrite Hinertia. by destruct (physics_mode rigidbody_item =? FOLLOW_BONE)%N.
Qed.

(** C1. The sample record decodes to a FollowBone body of mass 1.0; the
    world constructed from it holds an engine body created with mass 1.0,
    not 0, and with zero inertia. *)
Theorem followbone_body_created_with_decoded_mass :
  ∃ scene rigidbody_item this rigidbody_data,
    PhysicsScene_new sample_rigidbody_bytes [] = inr scene
    ∧ GetRigidBodies scene = [rigidbody_item]
    ∧ physics_mode rigidbody_item = FOLLOW_BONE
    ∧ mass rigidbody_item = f32_1_0
    ∧ PhysicsWorld_new scene sample_transform = (this, inr tt)
    ∧ rigidbodies this = [rigidbody_data]
    ∧ m_mass (constructionInfo (rigidbody rigidbody_data)) = f32_1_0
    ∧ f32_ne_zero (m_mass (constructionInfo (rigidbody rigidbody_data))) = true
    ∧ m_localInertia (constructionInfo (rigidbody rigidbody_data)) =
        inertia_vector (mkbtVector3 f32_0_0 f32_0_0 f32_0_0).
Proof.
  do 4 eexists. repeat split; vm_compute; reflexivity.
Qed.

(** What the dynamics world has received when the invalid-index exception
    leaves the constructor of the sample scene: the ground and the body were
    added, and the constructor removed neither. *)
Lemma out_of_range_joint_world_calls :
  PhysicsWorld_new (sample_scene SPHERE PHYSICS [sample_joint 5 0]) sample_transform
  = (sample_world SPHERE PHYSICS [sample_joint 5 0], inl InvalidIndex)
  ∧ world (sample_world SPHERE PHYSICS [sample_joint 5 0])
    = [ setGravity (mkbtVector3 f32_0_0 f32_minus_9_81 f32_0_0);
        addRigidBody ground_rigidbody_get;
        setOverlapFilterCallback
          {| ground_proxy := getBroadphaseProxy ground_rigidbody_get |};
        addRigidBody (rigidbody_get 0) ].
Proof. split; vm_compute; reflexivity. Qed.

End Constructor.

(** The float comparison on bit patterns: only the two zeros compare equal
    to [0.0f]. *)
Lemma f32_ne_zero_false_iff (v : f32) :
  (v < 2 ^ 32)%N →
  f32_ne_zero v = false ↔ v = 0%N ∨ v = 0x80000000%N.
Proof.
  intros Hv. unfold f32_ne_zero.
  change 0x7FFFFFFF%N with (N.ones 31). rewrite N.land_ones.
  rewrite negb_false_iff, N.eqb_eq.
  change (2 ^ 32)%N with 4294967296%N in Hv.
  change (2 ^ 31)%N with 2147483648%N.
  pose proof (N.Div0.div_mod v 2147483648) as Hdm.
  assert (v / 2147483648 < 2)%N by (apply N.Div0.div_lt_upper_bound; lia).
  split; [intros Hm|intros [->| ->]; reflexivity]. lia.
Qed.

(** ** The constraints *)

Section Constraints.

Lemma set_springs_spec joint_item (c : btGeneric6DofSpringConstraint) :
  m_springEnabled c = replicate 6 false →
  m_springStiffness c = replicate 6 f32_0_0 →
  m_springEnabled (set_springs joint_item c) =
    map (λ axis, f32_ne_zero (spring_component joint_item axis)) (seq 0 6)
  ∧ m_springStiffness (set_springs joint_item c) =
    map (λ axis,
           if f32_ne_zero (spring_component joint_item axis)
           then (if decide (axis = 2) then f32_neg (spring_component joint_item axis)
                 else spring_component joint_item axis)
           else f32_0_0)
        (seq 0 6).
Proof.
  intros Henabled Hstiffness. unfold set_springs, spring_component. simpl.
  destruct (f32_ne_zero (x (position_spring joint_item)));
    destruct (f32_ne_zero (y (position_spring joint_item)));
    destruct (f32_ne_zero (z (position_spring joint_item)));
    destruct (f32_ne_zero (x (rotation_spring joint_item)));
    destruct (f32_ne_zero (y (rotation_spring joint_item)));
    destruct (f32_ne_zero (z (rotation_spring joint_item)));
    simpl; rewrite Henabled, Hstiffness; split; reflexivity.
Qed.

(** C7. In a constructed world the constraint of every joint has, on each
    of the six axes, its spring enabled exactly when the spring component of
    that axis compares different from 0.0; the stiffness of an enabled axis
    is that component, negated on axis 2, and an axis whose component is
    zero keeps the constructor's disabled spring of stiffness zero. *)
Theorem spring_enabled_iff_component_nonzero
    scene buffer this n joint_item axis :
  PhysicsWorld_new scene buffer = (this, inr tt) →
  GetJoints scene !! n = Some joint_item →
  axis < 6 →
  ∃ constraint,
    joints this !! n = Some constraint
    ∧ m_springEnabled constraint !! axis
      = Some (f32_ne_zero (spring_component joint_item axis))
    ∧ m_springStiffness constraint !! axis
      = Some (if f32_ne_zero (spring_component joint_item axis)
              then (if decide (axis = 2)
                    then f32_neg (z (position_spring joint_item))
                    else spring_component joint_item axis)
              else f32_0_0).
Proof.
  intros Hnew Hjoint Haxis.
  destruct (PhysicsWorld_new_inr _ _ _ Hnew) as (_ & _ & _ & _ & Hjoints).
  exists (constraint_of (rigidbodies this) joint_item). split.
  { rewrite Hjoints, list_lookup_fmap, Hjoint. reflexivity. }
  unfold constraint_of, make_constraint.
  match goal with |- context [set_springs joint_item ?c] =>
    destruct (set_springs_spec joint_item c eq_refl eq_refl) as [-> ->]
  end.
  rewrite !list_lookup_fmap, !lookup_seq_lt by done. simpl.
  split; [reflexivity|].
  case_decide; [subst axis|]; reflexivity.
Qed.

(** The sample joint has 3.0 in [position_spring.z]: axis 2 is enabled with
    stiffness -3.0. *)
Lemma spring_enabled_iff_component_nonzero_witness :
  ∃ constraint,
    joints (sample_world SPHERE PHYSICS [sample_joint 0 0]) !! 0 = Some constraint
    ∧ m_springEnabled constraint !! 2 = Some true
    ∧ m_springStiffness constraint !! 2 = Some (f32_neg f32_3_0).
Proof.
  exact (spring_enabled_iff_component_nonzero
           (sample_scene SPHERE PHYSICS [sample_joint 0 0]) sample_transform
           (sample_world SPHERE PHYSICS [sample_joint 0 0]) 0 (sample_joint 0 0) 2
           eq_refl eq_refl (le_n_S 2 5 (le_S 2 4 (le_S 2 3 (le_S 2 2 (le_n 2)))))).
Defined.

End Constraints.

(** ** The collision filter *)

Section Filter.

(** C5. The filter lets a pair through exactly when one of the two proxies
    is the ground proxy, or the group of each meets the mask of the other.
    So two proxies other than the ground never pass when the group of one
    misses the mask of the other, and every proxy passes with the ground. *)
Theorem filter_true_iff_ground_or_both_match
    (self : PhysicsFilterCallback)
    (deref : btBroadphaseProxyPtr → btBroadphaseProxy)
    (proxy0 proxy1 : btBroadphaseProxyPtr) :
  let group0 := m_collisionFilterGroup (deref proxy0) in
  let mask0 := m_collisionFilterMask (deref proxy0) in
  let group1 := m_collisionFilterGroup (deref proxy1) in
  let mask1 := m_collisionFilterMask (deref proxy1) in
  (needBroadphaseCollision self deref proxy0 proxy1 = true
   ↔ (proxy0 = ground_proxy self ∨ proxy1 = ground_proxy self)
     ∨ (Z.land group0 mask1 ≠ 0%Z ∧ Z.land mask0 group1 ≠ 0%Z))
  ∧ (proxy0 ≠ ground_proxy self → proxy1 ≠ ground_proxy self →
     Z.land group0 mask1 = 0%Z ∨ Z.land mask0 group1 = 0%Z →
     needBroadphaseCollision self deref proxy0 proxy1 = false)
  ∧ needBroadphaseCollision self deref proxy0 (ground_proxy self) = true
  ∧ needBroadphaseCollision self deref (ground_proxy self) proxy1 = true.
Proof.
  intros group0 mask0 group1 mask1.
  assert (Hiff : needBroadphaseCollision self deref proxy0 proxy1 = true
    ↔ (proxy0 = ground_proxy self ∨ proxy1 = ground_proxy self)
      ∨ (Z.land group0 mask1 ≠ 0%Z ∧ Z.land mask0 group1 ≠ 0%Z)).
  { unfold needBroadphaseCollision. fold group0 mask0 group1 mask1.
    rewrite orb_true_iff, andb_true_iff, orb_true_iff, !negb_true_iff,
      !Z.eqb_neq, !bool_decide_eq_true. tauto. }
  split; [exact Hiff|]. split; [|split].
  - intros Hg0 Hg1 Hmiss. apply not_true_is_false. rewrite Hiff.
    intros [[?|?]|[? ?]]; [done|done|]. destruct Hmiss; done.
  - unfold needBroadphaseCollision.
    rewrite (bool_decide_eq_true_2 (ground_proxy self = ground_proxy self)) by done.
    by rewrite !orb_true_r.
  - unfold needBroadphaseCollision.
    rewrite (bool_decide_eq_true_2 (ground_proxy self = ground_proxy self)) by done.
    by rewrite !orb_true_r.
Qed.

End Filter.

(** ** The destructor *)

Section Destructor.

Lemma removeConstraint_for_spec items index (calls : list WorldCall) :
  removeConstraint_for items index calls =
  calls ++ map (λ k, removeConstraint (joint_get k)) (seq index (length items)).
Proof.
  revert index calls. induction items as [|item items IH]; intros index calls; simpl.
  - by rewrite app_nil_r.
  - rewrite IH, <- app_assoc. reflexivity.
Qed.

Lemma removeRigidBody_for_spec items index (calls : list WorldCall) :
  removeRigidBody_for items index calls =
  calls ++ map (λ k, removeRigidBody (rigidbody_get k)) (seq index (length items)).
Proof.
  revert index calls. induction items as [|item items IH]; intros index calls; simpl.
  - by rewrite app_nil_r.
  - rewrite IH, <- app_assoc. reflexivity.
Qed.

Lemma PhysicsWorld_delete_calls (this : PhysicsWorld) :
  PhysicsWorld_delete this =
  removeRigidBody ground_rigidbody_get
  :: map (λ k, removeConstraint (joint_get k)) (seq 0 (length (joints this)))
  ++ map (λ k, removeRigidBody (rigidbody_get k)) (seq 0 (length (rigidbodies this))).
Proof.
  unfold PhysicsWorld_delete.
  rewrite removeRigidBody_for_spec, removeConstraint_for_spec. reflexivity.
Qed.

(** C6, as the code has it. The destructor removes the ground plane first,
    then the constraint of every joint in order, then the rigid body of every
    scene body in order: every constraint is removed before any scene body,
    and the ground plane before all of them. *)
Theorem teardown_ground_then_constraints_then_bodies (this : PhysicsWorld) :
  PhysicsWorld_delete this =
    removeRigidBody ground_rigidbody_get
    :: map (λ k, removeConstraint (joint_get k)) (seq 0 (length (joints this)))
    ++ map (λ k, removeRigidBody (rigidbody_get k)) (seq 0 (length (rigidbodies this)))
  ∧ ground_removed_first (PhysicsWorld_delete this)
  ∧ constraints_removed_before_bodies (PhysicsWorld_delete this).
Proof.
  split; [apply PhysicsWorld_delete_calls|].
  rewrite PhysicsWorld_delete_calls.
  set (cs := map (λ k, removeConstraint (joint_get k)) (seq 0 (length (joints this)))).
  set (bs := map (λ k, removeRigidBody (rigidbody_get k))
               (seq 0 (length (rigidbodies this)))).
  assert (Hcs : ∀ p call, cs !! p = Some call → ∃ k, call = removeConstraint (joint_get k)).
  { intros p call Hp. unfold cs in Hp. rewrite list_lookup_fmap in Hp.
    destruct (seq 0 (length (joints this)) !! p) as [k|]; simplify_eq/=. by exists k. }
  assert (Hbs : ∀ p call, bs !! p = Some call →
                          ∃ k, call = removeRigidBody (rigidbody_get k)).
  { intros p call Hp. unfold bs in Hp. rewrite list_lookup_fmap in Hp.
    destruct (seq 0 (length (rigidbodies this)) !! p) as [k|]; simplify_eq/=.
    by exists k. }
  split.
  - intros p. split; [|intros ->; reflexivity].
    destruct p as [|p]; [done|]. simpl. intros Hp. exfalso.
    apply lookup_app_Some in Hp as [Hp|[_ Hp]].
    + apply Hcs in Hp as [k Hk]. discriminate.
    + apply Hbs in Hp as [k Hk]. discriminate.
  - intros p q c i Hp Hq.
    destruct p as [|p]; [discriminate|]. destruct q as [|q]; [discriminate|].
    simpl in Hp, Hq.
    apply lookup_app_Some in Hp as [Hp|[_ Hp]].
    2: { apply Hbs in Hp as [k Hk]. discriminate. }
    apply lookup_app_Some in Hq as [Hq|[Hq _]].
    { apply Hcs in Hq as [k Hk]. discriminate. }
    apply lookup_lt_Some in Hp. lia.
Qed.

(** C6 as stated fails: in the world of one sample body the ground plane is
    removed before the body, not after it. *)
Lemma teardown_counterexample :
  PhysicsWorld_delete (sample_world SPHERE PHYSICS [])
  = [removeRigidBody ground_rigidbody_get; removeRigidBody (rigidbody_get 0)]
  ∧ ¬ bodies_removed_before_ground (PhysicsWorld_delete (sample_world SPHERE PHYSICS [])).
Proof.
  split; [vm_compute; reflexivity|].
  intros Horder. specialize (Horder 1 0 0 eq_refl eq_refl). lia.
Qed.

End Destructor.

(** ** The motion states and [Step] *)

Section MotionStates.

Implicit Types (this : PhysicsWorld) (scene : PhysicsScene) (buffer : list f32).
Implicit Types (state : btMotionState) (T : btTransform).

Lemma slot_ext buffer1 buffer2 i :
  (∀ k, k < 16 → buffer1 !! (16 * i + k) = buffer2 !! (16 * i + k)) →
  slot buffer1 i = slot buffer2 i.
Proof.
  intros Hsame. unfold slot. apply list_eq. intros k.
  destruct (decide (k < 16)) as [Hk|Hk].
  - rewrite !lookup_take_lt, !lookup_drop by done. by apply Hsame.
  - rewrite !lookup_take_ge by lia. reflexivity.
Qed.

Lemma slot_translation_ext buffer1 buffer2 i :
  (∀ k, 12 ≤ k < 15 → buffer1 !! (16 * i + k) = buffer2 !! (16 * i + k)) →
  slot_translation buffer1 i = slot_translation buffer2 i.
Proof.
  intros Hsame. unfold slot_translation, slot. apply list_eq. intros k.
  destruct (decide (k < 3)) as [Hk|Hk].
  - rewrite !lookup_take_lt, !lookup_drop, !lookup_take_lt, !lookup_drop by lia.
    apply Hsame. lia.
  - rewrite !lookup_take_ge by lia. reflexivity.
Qed.

(** The transform read at [16 * i] is the one the floats of slot [i] encode. *)
Lemma setFromOpenGLMatrix_slot buffer i :
  setFromOpenGLMatrix buffer (i * 16) = setFromOpenGLMatrix (slot buffer i) 0.
Proof.
  unfold setFromOpenGLMatrix, slot. simpl.
  assert (Hk : ∀ k, k < 16 →
            buffer !!! (i * 16 + k) = take 16 (drop (16 * i) buffer) !!! k).
  { intros k Hk. rewrite !list_lookup_total_alt, lookup_take_lt, lookup_drop by done.
    by replace (16 * i + k) with (i * 16 + k) by lia. }
  rewrite !Hk by lia. reflexivity.
Qed.

Lemma length_OpenGLMatrix T : length (OpenGLMatrix T) = 16.
Proof. reflexivity. Qed.

(** [getOpenGLMatrix] overwrites the sixteen floats at [p] and nothing else. *)
Lemma slot_getOpenGLMatrix T buffer i :
  i * 16 + 16 ≤ length buffer →
  slot (getOpenGLMatrix T buffer (i * 16)) i = OpenGLMatrix T.
Proof.
  intros Hfits. unfold slot, getOpenGLMatrix. apply list_eq. intros k.
  destruct (decide (k < 16)) as [Hk|Hk].
  - rewrite lookup_take_lt, lookup_drop by done.
    rewrite list_lookup_inserts by (rewrite ?length_OpenGLMatrix; lia).
    f_equal. lia.
  - rewrite lookup_take_ge by lia. symmetry. apply lookup_ge_None_2.
    rewrite length_OpenGLMatrix. lia.
Qed.

Lemma lookup_getOpenGLMatrix_outside T buffer p q :
  q < p ∨ p + 16 ≤ q →
  getOpenGLMatrix T buffer p !! q = buffer !! q.
Proof.
  unfold getOpenGLMatrix. intros [Hlt|Hge].
  - by apply list_lookup_inserts_lt.
  - apply list_lookup_inserts_ge. by rewrite length_OpenGLMatrix.
Qed.

Lemma setWorldTransform_length state T buffer :
  length (setWorldTransform state T buffer) = length buffer.
Proof.
  destruct state; simpl; unfold getOpenGLMatrix; by rewrite ?length_inserts.
Qed.

(** A write through the motion state of body [j] leaves the floats outside
    slot [j] as they are. *)
Lemma setWorldTransform_outside mode j state T buffer q :
  motion_state_of_mode mode j state →
  q < j * 16 ∨ j * 16 + 16 ≤ q →
  setWorldTransform state T buffer !! q = buffer !! q.
Proof.
  intros [[_ ->]|[[_ ->]|[_ ->]]] Hq; simpl;
    [reflexivity| |]; by apply lookup_getOpenGLMatrix_outside.
Qed.

(** The hybrid motion state writes back the translation it finds. *)
Lemma PhysicsPlusBone_keeps_translation i T buffer k :
  i * 16 + 16 ≤ length buffer →
  12 ≤ k < 15 →
  setWorldTransform (PhysicsPlusBoneDynamicMotionState i) T buffer !! (i * 16 + k)
  = buffer !! (i * 16 + k).
Proof.
  intros Hfits Hk. simpl. unfold getOpenGLMatrix.
  rewrite list_lookup_inserts by (rewrite ?length_OpenGLMatrix; lia).
  replace (i * 16 + k - i * 16) with k by lia.
  rewrite (list_lookup_lookup_total_lt buffer (i * 16 + k)) by lia.
  assert (Hcases : k = 12 ∨ k = 13 ∨ k = 14) by lia.
  destruct Hcases as [-> | [-> | ->]]; reflexivity.
Qed.

Lemma Step_transform_buffer this delta_time max_sub_steps fixed_time_step calls :
  transform_buffer (Step this delta_time max_sub_steps fixed_time_step calls)
  = foldl (run_MotionStateCall (rigidbodies this)) (transform_buffer this) calls.
Proof. reflexivity. Qed.

Lemma run_MotionStateCall_length bodies buffer call :
  length (run_MotionStateCall bodies buffer call) = length buffer.
Proof.
  destruct call as [index|index T]; simpl; [reflexivity|].
  destruct (bodies !! index); [apply setWorldTransform_length|reflexivity].
Qed.

Lemma run_calls_length bodies calls buffer :
  length (foldl (run_MotionStateCall bodies) buffer calls) = length buffer.
Proof.
  revert buffer. induction calls as [|call calls IH]; intros buffer; simpl.
  - reflexivity.
  - by rewrite IH, run_MotionStateCall_length.
Qed.

(** A float that no single write can change survives every sequence of
    callbacks. *)
Lemma run_calls_lookup bodies n q :
  (∀ j rigidbody_data T buffer,
     bodies !! j = Some rigidbody_data → length buffer = n →
     setWorldTransform (motion_state rigidbody_data) T buffer !! q = buffer !! q) →
  ∀ calls buffer, length buffer = n →
    foldl (run_MotionStateCall bodies) buffer calls !! q = buffer !! q.
Proof.
  intros Hwrite. induction calls as [|call calls IH]; intros buffer Hlen; simpl.
  - reflexivity.
  - rewrite IH by (by rewrite run_MotionStateCall_length).
    destruct call as [index|index T]; simpl; [reflexivity|].
    destruct (bodies !! index) as [d|] eqn:Hd; [|reflexivity].
    by eapply Hwrite.
Qed.

Lemma reachable_invariant scene this :
  reachable scene this → world_invariant scene this.
Proof.
  induction 1 as [buffer this Hnew|this dt ms fs calls _ IH|this buffer _ IH Hlen].
  - destruct (PhysicsWorld_new_inr _ _ _ Hnew) as (Hbuffer & Hsize & Hbodies & Hbuilt & _).
    split; [congruence|]. split; [done|].
    intros i item Hi. destruct (Hbuilt i item Hi) as (d & Hd & Hstate & _).
    by exists d.
  - destruct IH as (Hsize & Hbodies & Hstates).
    split; [|split; [done|done]].
    by rewrite Step_transform_buffer, run_calls_length.
  - destruct IH as (Hsize & Hbodies & Hstates).
    split; [|split; [done|done]]. simpl. congruence.
Qed.

(** In a world that satisfies the invariant, the motion state of a body
    writes inside the slot of that body only. *)
Lemma invariant_write_outside scene this j rigidbody_data T buffer q :
  world_invariant scene this →
  rigidbodies this !! j = Some rigidbody_data →
  q < j * 16 ∨ j * 16 + 16 ≤ q →
  setWorldTransform (motion_state rigidbody_data) T buffer !! q = buffer !! q.
Proof.
  intros (_ & Hbodies & Hstates) Hj Hq.
  assert (Hlt : j < length (GetRigidBodies scene)).
  { rewrite <- Hbodies. by eapply lookup_lt_Some. }
  destruct (lookup_lt_is_Some_2 _ _ Hlt) as [item Hitem].
  destruct (Hstates j item Hitem) as (d & Hd & Hstate).
  assert (d = rigidbody_data) as -> by congruence.
  by eapply setWorldTransform_outside.
Qed.

(** Writing a transform as sixteen floats and reading it back returns it. *)
Lemma setFromOpenGLMatrix_OpenGLMatrix T :
  setFromOpenGLMatrix (OpenGLMatrix T) 0 = T.
Proof. destruct T as [[[] [] []] []]. reflexivity. Qed.

Lemma slot_fits scene this i rigidbody_item :
  world_invariant scene this →
  GetRigidBodies scene !! i = Some rigidbody_item →
  i * 16 + 16 ≤ length (transform_buffer this).
Proof.
  intros (Hsize & _ & _) Hi. apply lookup_lt_Some in Hi. lia.
Qed.

(** C4. In every state of a constructed world, the motion state of a scene
    body in mode PhysicsPlusBone, at index [i], stores on [write(T)] into
    slot [i] the transform made of the rotation of [T] and of the translation
    found in slot [i]; the translation of the slot is therefore the same
    after the write, and the same after a whole step, whatever the engine
    calls back during it. *)
Theorem plus_bone_write_pins_translation scene this i rigidbody_item :
  reachable scene this →
  GetRigidBodies scene !! i = Some rigidbody_item →
  physics_mode rigidbody_item = PHYSICS_PLUS_BONE →
  ∃ rigidbody_data,
    rigidbodies this !! i = Some rigidbody_data
    ∧ (∀ T,
         let written :=
           setWorldTransform (motion_state rigidbody_data) T (transform_buffer this) in
         slot written i =
           OpenGLMatrix
             {| getBasis := getBasis T;
                getOrigin :=
                  getOrigin (setFromOpenGLMatrix (slot (transform_buffer this) i) 0) |}
         ∧ getBasis (getWorldTransform (motion_state rigidbody_data) written)
           = getBasis T
         ∧ slot_translation written i = slot_translation (transform_buffer this) i)
    ∧ (∀ delta_time max_sub_steps fixed_time_step calls,
         slot_translation
           (transform_buffer (Step this delta_time max_sub_steps fixed_time_step calls)) i
         = slot_translation (transform_buffer this) i).
Proof.
  intros Hreach Hi Hmode.
  pose proof (reachable_invariant _ _ Hreach) as Hinv.
  pose proof (slot_fits _ _ _ _ Hinv Hi) as Hfits.
  destruct Hinv as (Hsize & Hbodies & Hstates).
  destruct (Hstates i rigidbody_item Hi) as (d & Hd & Hstate).
  rewrite Hmode in Hstate.
  destruct Hstate as [[? _]|[[? _]|[_ Hstate]]]; [discriminate|discriminate|].
  exists d. split; [done|]. rewrite Hstate. split.
  - intros T written.
    assert (Hslot : slot written i =
              OpenGLMatrix
                {| getBasis := getBasis T;
                   getOrigin :=
                     getOrigin (setFromOpenGLMatrix (slot (transform_buffer this) i) 0) |}).
    { unfold written. cbn [setWorldTransform].
      rewrite slot_getOpenGLMatrix by done.
      unfold setOrigin. by rewrite setFromOpenGLMatrix_slot. }
    split; [exact Hslot|]. split.
    + cbn [getWorldTransform].
      by rewrite setFromOpenGLMatrix_slot, Hslot, setFromOpenGLMatrix_OpenGLMatrix.
    + apply slot_translation_ext. intros k Hk.
      replace (16 * i + k) with (i * 16 + k) by lia.
      by apply PhysicsPlusBone_keeps_translation.
  - intros dt ms fs calls. apply slot_translation_ext. intros k Hk.
    rewrite Step_transform_buffer.
    apply (run_calls_lookup _ (length (transform_buffer this))); [|done].
    intros j dj T buffer Hj Hlen.
    destruct (decide (j = i)) as [->|Hne].
    + assert (dj = d) as -> by congruence. rewrite Hstate.
      replace (16 * i + k) with (i * 16 + k) by lia.
      apply PhysicsPlusBone_keeps_translation; [lia|done].
    + eapply invariant_write_outside; [by repeat split|done|lia].
Qed.

(** A step in which the engine writes a quarter turn at the origin into the
    sample body: the slot takes the rotation and keeps (2.0, 3.0, 0.0). *)
Lemma plus_bone_write_pins_translation_witness :
  reachable (sample_scene SPHERE PHYSICS_PLUS_BONE [])
    (sample_world SPHERE PHYSICS_PLUS_BONE [])
  ∧ slot_translation
      (transform_buffer
         (Step (sample_world SPHERE PHYSICS_PLUS_BONE []) f32_1_0 f32_1_0 f32_1_0
            [call_setWorldTransform 0 sample_rotation])) 0
    = [f32_2_0; f32_3_0; f32_0_0]
  ∧ slot
      (transform_buffer
         (Step (sample_world SPHERE PHYSICS_PLUS_BONE []) f32_1_0 f32_1_0 f32_1_0
            [call_setWorldTransform 0 sample_rotation])) 0
    = OpenGLMatrix
        {| getBasis := getBasis sample_rotation;
           getOrigin := mkbtVector3 f32_2_0 f32_3_0 f32_0_0 |}.
Proof.
  assert (Hreach : reachable (sample_scene SPHERE PHYSICS_PLUS_BONE [])
                     (sample_world SPHERE PHYSICS_PLUS_BONE [])).
  { by apply (reachable_new _ sample_transform). }
  split; [exact Hreach|].
  destruct (plus_bone_write_pins_translation
              (sample_scene SPHERE PHYSICS_PLUS_BONE [])
              (sample_world SPHERE PHYSICS_PLUS_BONE []) 0
              (sample_rigidbody SPHERE PHYSICS_PLUS_BONE) Hreach eq_refl eq_refl)
    as (d & _ & _ & Hstep).
  split; [|reflexivity].
  exact (Hstep f32_1_0 f32_1_0 f32_1_0 [call_setWorldTransform 0 sample_rotation]).
Defined.

(** C9. In every state of a constructed world, the motion state of a scene
    body in mode FollowBone, at index [i], reads the transform that the
    floats of slot [i] encode, and its write leaves the whole buffer as it
    is; slot [i] is therefore the same after a step, whatever the engine
    calls back during it. *)
Theorem follow_bone_slot_untouched scene this i rigidbody_item :
  reachable scene this →
  GetRigidBodies scene !! i = Some rigidbody_item →
  physics_mode rigidbody_item = FOLLOW_BONE →
  ∃ rigidbody_data,
    rigidbodies this !! i = Some rigidbody_data
    ∧ getWorldTransform (motion_state rigidbody_data) (transform_buffer this)
      = setFromOpenGLMatrix (slot (transform_buffer this) i) 0
    ∧ (∀ T buffer, setWorldTransform (motion_state rigidbody_data) T buffer = buffer)
    ∧ (∀ delta_time max_sub_steps fixed_time_step calls,
         slot (transform_buffer (Step this delta_time max_sub_steps fixed_time_step calls)) i
         = slot (transform_buffer this) i).
Proof.
  intros Hreach Hi Hmode.
  pose proof (reachable_invariant _ _ Hreach) as Hinv.
  pose proof (slot_fits _ _ _ _ Hinv Hi) as Hfits.
  destruct Hinv as (Hsize & Hbodies & Hstates).
  destruct (Hstates i rigidbody_item Hi) as (d & Hd & Hstate).
  rewrite Hmode in Hstate.
  destruct Hstate as [[_ Hstate]|[[? _]|[? _]]]; [|discriminate|discriminate].
  exists d. split; [done|]. rewrite Hstate. split; [|split].
  - cbn [getWorldTransform]. apply setFromOpenGLMatrix_slot.
  - reflexivity.
  - intros dt ms fs calls. apply slot_ext. intros k Hk.
    rewrite Step_transform_buffer.
    apply (run_calls_lookup _ (length (transform_buffer this))); [|done].
    intros j dj T buffer Hj Hlen.
    destruct (decide (j = i)) as [->|Hne].
    + assert (dj = d) as -> by congruence. by rewrite Hstate.
    + eapply invariant_write_outside; [by repeat split|done|lia].
Qed.

(** A step in which the engine reads the sample body and then tries to
    write a quarter turn into it: the slot is as before. *)
Lemma follow_bone_slot_untouched_witness :
  reachable (sample_scene SPHERE FOLLOW_BONE []) (sample_world SPHERE FOLLOW_BONE [])
  ∧ slot
      (transform_buffer
         (Step (sample_world SPHERE FOLLOW_BONE []) f32_1_0 f32_1_0 f32_1_0
            [call_getWorldTransform 0; call_setWorldTransform 0 sample_rotation])) 0
    = sample_transform.
Proof.
  assert (Hreach : reachable (sample_scene SPHERE FOLLOW_BONE [])
                     (sample_world SPHERE FOLLOW_BONE [])).
  { by apply (reachable_new _ sample_transform). }
  split; [exact Hreach|].
  destruct (follow_bone_slot_untouched
              (sample_scene SPHERE FOLLOW_BONE [])
              (sample_world SPHERE FOLLOW_BONE []) 0
              (sample_rigidbody SPHERE FOLLOW_BONE) Hreach eq_refl eq_refl)
    as (d & _ & _ & _ & Hstep).
  exact (Hstep f32_1_0 f32_1_0 f32_1_0
           [call_getWorldTransform 0; call_setWorldTransform 0 sample_rotation]).
Defined.

End MotionStates.

(** ** More on the decoder *)

Section DecoderLocality.

Implicit Types (data pre post : list byte) (p k n : nat).

Lemma byte_at_app_l data post p :
  p < length data → byte_at (data ++ post) p = byte_at data p.
Proof. intros Hp. unfold byte_at. by rewrite lookup_app_l. Qed.

Lemma byte_at_app_r pre data p :
  byte_at (pre ++ data) (length pre + p) = byte_at data p.
Proof.
  unfold byte_at. rewrite lookup_app_r by lia.
  by replace (length pre + p - length pre) with p by lia.
Qed.

(** [CopyField] looks at four bytes only. *)
Lemma CopyField_ext data1 data2 p1 p2 :
  (∀ k, k < 4 → byte_at data1 (p1 + k) = byte_at data2 (p2 + k)) →
  CopyField data1 p1 = CopyField data2 p2.
Proof.
  intros Hsame. unfold CopyField.
  pose proof (Hsame 0) as H0. rewrite !Nat.add_0_r in H0.
  rewrite H0, (Hsame 1), (Hsame 2), (Hsame 3) by lia. reflexivity.
Qed.

(** A rigid-body record is read from its 72 bytes only. *)
Lemma read_rigidbody_ext data1 data2 p1 p2 :
  (∀ k, k < 72 → byte_at data1 (p1 + k) = byte_at data2 (p2 + k)) →
  read_rigidbody data1 p1 = read_rigidbody data2 p2.
Proof.
  intros Hsame. unfold read_rigidbody, CopyEnumField, CopyVector3fField.
  f_equal;
    first [ apply CopyField_ext; intros k Hk;
            rewrite <- !Nat.add_assoc; apply Hsame; lia
          | f_equal; apply CopyField_ext; intros k Hk;
            rewrite <- !Nat.add_assoc; apply Hsame; lia ].
Qed.

(** A joint record is read from its 108 bytes only. *)
Lemma read_joint_ext data1 data2 p1 p2 :
  (∀ k, k < 108 → byte_at data1 (p1 + k) = byte_at data2 (p2 + k)) →
  read_joint data1 p1 = read_joint data2 p2.
Proof.
  intros Hsame. unfold read_joint, CopyEnumField, CopyVector3fField.
  f_equal;
    first [ apply CopyField_ext; intros k Hk;
            rewrite <- !Nat.add_assoc; apply Hsame; lia
          | f_equal; apply CopyField_ext; intros k Hk;
            rewrite <- !Nat.add_assoc; apply Hsame; lia ].
Qed.

(** Reading every record of two buffers laid end to end. *)
Lemma read_records_app {A : Type} (read : list byte → nat → A) (width : nat)
    data1 data2 n1 n2 :
  (∀ d1 d2 p1 p2,
     (∀ k, k < width → byte_at d1 (p1 + k) = byte_at d2 (p2 + k)) →
     read d1 p1 = read d2 p2) →
  length data1 = n1 * width →
  map (λ i, read (data1 ++ data2) (i * width)) (seq 0 (n1 + n2))
  = map (λ i, read data1 (i * width)) (seq 0 n1)
    ++ map (λ i, read data2 (i * width)) (seq 0 n2).
Proof.
  intros Hext Hlen. rewrite seq_app, map_app. f_equal.
  - apply map_ext_in. intros i Hi. apply in_seq in Hi.
    apply Hext. intros k Hk. apply byte_at_app_l. nia.
  - simpl.
    replace (seq n1 n2) with (map (Nat.add n1) (seq 0 n2))
      by (rewrite <- (Nat.add_0_r n1) at 2; apply (fmap_add_seq n1 0 n2)).
    rewrite map_map. apply map_ext. intros i.
    apply Hext. intros k Hk.
    replace ((n1 + i) * width + k) with (length data1 + (i * width + k)) by lia.
    apply byte_at_app_r.
Qed.

End DecoderLocality.

Section DecoderRoundTrip.

Implicit Types (data : list byte) (p k n : nat) (v : N).

Lemma of_N_to_N v :
  (v < 256)%N → Byte.to_N (default "000"%byte (Byte.of_N v)) = v.
Proof.
  intros Hv. destruct (Byte.of_N v) as [b|] eqn:Hb; simpl.
  - by apply Byte.to_of_N.
  - apply Byte.of_N_None_iff in Hb. lia.
Qed.

Lemma byte_decomposition v :
  is_32bit v →
  (v mod 256 + 256 * ((v / 256) mod 256) + 65536 * ((v / 65536) mod 256)
   + 16777216 * ((v / 16777216) mod 256))%N = v.
Proof.
  unfold is_32bit. change (2 ^ 32)%N with 4294967296%N. intros Hv.
  pose proof (N.Div0.div_mod v 256) as H0.
  pose proof (N.Div0.div_mod (v / 256) 256) as H1.
  pose proof (N.Div0.div_mod (v / 65536) 256) as H2.
  rewrite N.Div0.div_div in H1, H2.
  change (256 * 256)%N with 65536%N in H1.
  change (65536 * 256)%N with 16777216%N in H2.
  assert (v / 16777216 < 256)%N as H3 by (apply N.Div0.div_lt_upper_bound; lia).
  rewrite (N.mod_small (v / 16777216) 256) by done. lia.
Qed.

Lemma length_little_endian_bytes v : length (little_endian_bytes v) = 4.
Proof. reflexivity. Qed.

(** The four bytes of a value, read back by [CopyField]. *)
Lemma CopyField_here v (rest : list byte) :
  is_32bit v → CopyField (little_endian_bytes v ++ rest) 0 = v.
Proof.
  intros Hv. rewrite CopyField_little_endian.
  unfold little_endian_at, byte_at, little_endian_bytes. simpl.
  change (256 ^ 0)%N with 1%N. change (256 ^ 1)%N with 256%N.
  change (256 ^ 2)%N with 65536%N. change (256 ^ 3)%N with 16777216%N.
  rewrite N.div_1_r.
  rewrite !of_N_to_N by (apply N.mod_lt; lia).
  by apply byte_decomposition.
Qed.

Lemma CopyField_skip (bs rest : list byte) p :
  length bs = 4 →
  CopyField (bs ++ rest) (S (S (S (S p)))) = CopyField rest p.
Proof.
  intros Hbs. apply CopyField_ext. intros k Hk.
  replace (S (S (S (S p))) + k) with (length bs + (p + k)) by lia.
  apply byte_at_app_r.
Qed.

Lemma length_rigidbody_record (r : RigidBody) : length (rigidbody_record r) = 72.
Proof. reflexivity. Qed.

Lemma length_joint_record (j : Joint) : length (joint_record j) = 108.
Proof. reflexivity. Qed.

Lemma read_rigidbody_record (r : RigidBody) :
  rigidbody_32bit r → read_rigidbody (rigidbody_record r) 0 = r.
Proof.
  destruct r as [g m st [sx sy sz] [px py pz] [rx ry rz] ms ma rd rp ff pm].
  unfold rigidbody_32bit, vec3_32bit. simpl. intros Hbits. destruct_and!.
  rewrite <- (app_nil_r (rigidbody_record _)).
  unfold read_rigidbody, CopyEnumField, CopyVector3fField, rigidbody_record, vec3_bytes.
  cbn [collision_group collision_mask shape_type shape_size shape_position
       shape_rotation mass move_attenuation rotation_damping repulsion
       friction_force physics_mode x y z Nat.add].
  rewrite <- !app_assoc.
  rewrite !CopyField_skip by apply length_little_endian_bytes.
  rewrite !CopyField_here by done. reflexivity.
Qed.

Lemma read_joint_record (j : Joint) :
  joint_32bit j → read_joint (joint_record j) 0 = j.
Proof.
  destruct j as [t a b [px py pz] [rx ry rz] [pnx pny pnz] [pxx pxy pxz]
                   [rnx rny rnz] [rxx rxy rxz] [psx psy psz] [rsx rsy rsz]].
  unfold joint_32bit, vec3_32bit. simpl. intros Hbits. destruct_and!.
  rewrite <- (app_nil_r (joint_record _)).
  unfold read_joint, CopyEnumField, CopyVector3fField, joint_record, vec3_bytes.
  cbn [type rigidbody_a_index rigidbody_b_index position rotation position_min
       position_max rotation_min rotation_max position_spring rotation_spring
       x y z Nat.add].
  rewrite <- !app_assoc.
  rewrite !CopyField_skip by apply length_little_endian_bytes.
  rewrite !CopyField_here by done. reflexivity.
Qed.

Lemma length_rigidbody_records (rs : list RigidBody) :
  length (flat_map rigidbody_record rs) = length rs * 72.
Proof.
  induction rs as [|r rs IH]; [reflexivity|].
  change (flat_map rigidbody_record (r :: rs))
    with (rigidbody_record r ++ flat_map rigidbody_record rs).
  rewrite length_app, IH, length_rigidbody_record. simpl. lia.
Qed.

Lemma length_joint_records (js : list Joint) :
  length (flat_map joint_record js) = length js * 108.
Proof.
  induction js as [|j js IH]; [reflexivity|].
  change (flat_map joint_record (j :: js))
    with (joint_record j ++ flat_map joint_record js).
  rewrite length_app, IH, length_joint_record. simpl. lia.
Qed.

Lemma read_rigidbody_records (rs : list RigidBody) :
  Forall rigidbody_32bit rs →
  map (λ i, read_rigidbody (flat_map rigidbody_record rs) (i * 72)) (seq 0 (length rs))
  = rs.
Proof.
  induction 1 as [|r rs Hr _ IH]; [reflexivity|].
  change (length (r :: rs)) with (1 + length rs).
  change (flat_map rigidbody_record (r :: rs))
    with (rigidbody_record r ++ flat_map rigidbody_record rs).
  rewrite (read_records_app read_rigidbody 72 _ _ 1 (length rs)
             read_rigidbody_ext (length_rigidbody_record r)).
  rewrite IH. simpl. by rewrite read_rigidbody_record.
Qed.

Lemma read_joint_records (js : list Joint) :
  Forall joint_32bit js →
  map (λ i, read_joint (flat_map joint_record js) (i * 108)) (seq 0 (length js)) = js.
Proof.
  induction 1 as [|j js Hj _ IH]; [reflexivity|].
  change (length (j :: js)) with (1 + length js).
  change (flat_map joint_record (j :: js))
    with (joint_record j ++ flat_map joint_record js).
  rewrite (read_records_app read_joint 108 _ _ 1 (length js)
             read_joint_ext (length_joint_record j)).
  rewrite IH. simpl. by rewrite read_joint_record.
Qed.

End DecoderRoundTrip.

Section DecoderExtras.

Implicit Types (data : list byte) (p k n : nat).

(** X1. A buffer of [108 * n] bytes decodes to exactly [n] joints (none for the
    empty buffer), and every field of joint [i] is the little-endian value
    found at the field's fixed offset inside the [i]-th chunk of 108 bytes. *)
Theorem decode_joints_layout data n :
  length data = 108 * n →
  ∃ decoded,
    DeserializeJoints data = inr decoded
    ∧ length decoded = n
    ∧ ∀ i, i < n →
        ∃ j, decoded !! i = Some j
          ∧ type j = little_endian_at data (108 * i + 0)
          ∧ rigidbody_a_index j = little_endian_at data (108 * i + 4)
          ∧ rigidbody_b_index j = little_endian_at data (108 * i + 8)
          ∧ position j = little_endian_vec3_at data (108 * i + 12)
          ∧ rotation j = little_endian_vec3_at data (108 * i + 24)
          ∧ position_min j = little_endian_vec3_at data (108 * i + 36)
          ∧ position_max j = little_endian_vec3_at data (108 * i + 48)
          ∧ rotation_min j = little_endian_vec3_at data (108 * i + 60)
          ∧ rotation_max j = little_endian_vec3_at data (108 * i + 72)
          ∧ position_spring j = little_endian_vec3_at data (108 * i + 84)
          ∧ rotation_spring j = little_endian_vec3_at data (108 * i + 96).
Proof.
  intros Hlen.
  rewrite DeserializeJoints_cases.
  assert (Hmod : length data mod 108 = 0).
  { rewrite Hlen, Nat.mul_comm. apply Nat.Div0.mod_mul. }
  assert (Hdiv : length data / 108 = n).
  { rewrite Hlen, Nat.mul_comm. apply Nat.div_mul. lia. }
  rewrite decide_True by done.
  rewrite Hdiv, joints_loop_spec. simpl app.
  eexists. split; [reflexivity|]. split.
  { by rewrite length_map, length_seq. }
  intros i Hi.
  exists (read_joint data (i * 108)). split.
  { rewrite list_lookup_fmap, lookup_seq_lt by done. reflexivity. }
  replace (108 * i) with (i * 108) by lia.
  unfold read_joint, CopyEnumField; simpl.
  rewrite !CopyField_little_endian, !CopyVector3fField_little_endian.
  repeat split.
Qed.

(** Two joint records: the second joint names the bodies 1 and 2. *)
Lemma decode_joints_layout_witness :
  length sample_joint_bytes = 108 * 2
  ∧ ∃ decoded j,
      DeserializeJoints sample_joint_bytes = inr decoded
      ∧ length decoded = 2
      ∧ decoded !! 1 = Some j
      ∧ rigidbody_a_index j = little_endian_at sample_joint_bytes (108 * 1 + 4)
      ∧ rigidbody_b_index j = little_endian_at sample_joint_bytes (108 * 1 + 8).
Proof.
  split; [reflexivity|].
  destruct (decode_joints_layout sample_joint_bytes 2 eq_refl)
    as (decoded & Hdecoded & Hlength & Hfields).
  destruct (Hfields 1 (le_n 2)) as (j & Hj & _ & Ha & Hb & _).
  exists decoded, j. repeat split; assumption.
Defined.

(** X2. Decoding the records of rigid bodies whose fields fit 32 bits returns
    these rigid bodies: the decoder loses nothing, and the wire order of the
    fields (the physics mode comes fourth) is the one of the writer. *)
Theorem decode_rigidbody_records (rs : list RigidBody) :
  rs ≠ [] →
  Forall rigidbody_32bit rs →
  DeserializeRigidbodies (flat_map rigidbody_record rs) = inr rs.
Proof.
  intros Hne Hbits.
  rewrite DeserializeRigidbodies_cases, length_rigidbody_records.
  rewrite decide_False by (destruct rs; [done|simpl; lia]).
  rewrite decide_True by apply Nat.Div0.mod_mul.
  rewrite Nat.div_mul by lia.
  rewrite rigidbodies_loop_spec. simpl app.
  by rewrite read_rigidbody_records.
Qed.

(** The sample bytes are the record of the sample FollowBone sphere. *)
Lemma decode_rigidbody_records_witness :
  flat_map rigidbody_record [sample_rigidbody SPHERE FOLLOW_BONE] = sample_rigidbody_bytes
  ∧ DeserializeRigidbodies (flat_map rigidbody_record [sample_rigidbody SPHERE FOLLOW_BONE])
    = inr [sample_rigidbody SPHERE FOLLOW_BONE].
Proof.
  split; [reflexivity|].
  apply decode_rigidbody_records; [discriminate|].
  apply Forall_cons_2; [|apply Forall_nil_2].
  unfold rigidbody_32bit, vec3_32bit, is_32bit. repeat split.
Defined.

(** X3. Decoding the records of joints whose fields fit 32 bits returns these
    joints; no joints give the empty buffer, which decodes to no joints. *)
Theorem decode_joint_records (js : list Joint) :
  Forall joint_32bit js →
  DeserializeJoints (flat_map joint_record js) = inr js.
Proof.
  intros Hbits.
  rewrite DeserializeJoints_cases, length_joint_records.
  rewrite decide_True by apply Nat.Div0.mod_mul.
  rewrite Nat.div_mul by lia.
  rewrite joints_loop_spec. simpl app.
  by rewrite read_joint_records.
Qed.

Lemma decode_joint_records_witness :
  DeserializeJoints sample_joint_bytes = inr [sample_joint 0 0; sample_joint 1 2].
Proof.
  apply (decode_joint_records [sample_joint 0 0; sample_joint 1 2]).
  repeat apply Forall_cons_2; [| |apply Forall_nil_2];
    unfold joint_32bit, vec3_32bit, is_32bit; repeat split.
Defined.

(** X4. Rigid-body buffers laid end to end decode to the rigid bodies of the
    first followed by those of the second. *)
Theorem decode_rigidbodies_app data1 data2 n1 n2 :
  1 ≤ n1 → 1 ≤ n2 →
  length data1 = 72 * n1 →
  length data2 = 72 * n2 →
  ∃ decoded1 decoded2,
    DeserializeRigidbodies data1 = inr decoded1
    ∧ DeserializeRigidbodies data2 = inr decoded2
    ∧ DeserializeRigidbodies (data1 ++ data2) = inr (decoded1 ++ decoded2).
Proof.
  intros Hn1 Hn2 Hlen1 Hlen2.
  rewrite !DeserializeRigidbodies_cases, length_app, Hlen1, Hlen2.
  replace (72 * n1 + 72 * n2) with ((n1 + n2) * 72) by lia.
  replace (72 * n1) with (n1 * 72) by lia.
  replace (72 * n2) with (n2 * 72) by lia.
  rewrite (decide_False (P := n1 * 72 = 0)), (decide_False (P := n2 * 72 = 0)),
    (decide_False (P := (n1 + n2) * 72 = 0)) by lia.
  rewrite !decide_True by apply Nat.Div0.mod_mul.
  rewrite !Nat.div_mul by lia.
  rewrite !rigidbodies_loop_spec. simpl app.
  eexists _, _. split; [reflexivity|]. split; [reflexivity|].
  f_equal. apply (read_records_app read_rigidbody 72); [apply read_rigidbody_ext|lia].
Qed.

Lemma decode_rigidbodies_app_witness :
  ∃ decoded,
    DeserializeRigidbodies sample_rigidbody_bytes = inr decoded
    ∧ DeserializeRigidbodies (sample_rigidbody_bytes ++ sample_rigidbody_bytes)
      = inr (decoded ++ decoded).
Proof.
  destruct (decode_rigidbodies_app sample_rigidbody_bytes sample_rigidbody_bytes 1 1
              (le_n 1) (le_n 1) eq_refl eq_refl)
    as (decoded1 & decoded2 & H1 & H2 & H12).
  exists decoded1. split; [exact H1|].
  assert (decoded2 = decoded1) as Heq by congruence.
  rewrite Heq in H12. exact H12.
Defined.

(** X5. Joint buffers laid end to end decode to the joints of the first followed
    by those of the second; either may be empty. *)
Theorem decode_joints_app data1 data2 n1 n2 :
  length data1 = 108 * n1 →
  length data2 = 108 * n2 →
  ∃ decoded1 decoded2,
    DeserializeJoints data1 = inr decoded1
    ∧ DeserializeJoints data2 = inr decoded2
    ∧ DeserializeJoints (data1 ++ data2) = inr (decoded1 ++ decoded2).
Proof.
  intros Hlen1 Hlen2.
  rewrite !DeserializeJoints_cases, length_app, Hlen1, Hlen2.
  replace (108 * n1 + 108 * n2) with ((n1 + n2) * 108) by lia.
  replace (108 * n1) with (n1 * 108) by lia.
  replace (108 * n2) with (n2 * 108) by lia.
  rewrite !decide_True by apply Nat.Div0.mod_mul.
  rewrite !Nat.div_mul by lia.
  rewrite !joints_loop_spec. simpl app.
  eexists _, _. split; [reflexivity|]. split; [reflexivity|].
  f_equal. apply (read_records_app read_joint 108); [apply read_joint_ext|lia].
Qed.

(** Two different joint records, each a buffer of its own: the two-record
    buffer decodes to the joint of the first followed by that of the
    second. *)
Lemma decode_joints_app_witness :
  DeserializeJoints (joint_record (sample_joint 0 0)) = inr [sample_joint 0 0]
  ∧ DeserializeJoints (joint_record (sample_joint 1 2)) = inr [sample_joint 1 2]
  ∧ DeserializeJoints
      (joint_record (sample_joint 0 0) ++ joint_record (sample_joint 1 2))
    = inr ([sample_joint 0 0] ++ [sample_joint 1 2]).
Proof.
  destruct (decode_joints_app
              (joint_record (sample_joint 0 0)) (joint_record (sample_joint 1 2)) 1 1
              eq_refl eq_refl)
    as (decoded1 & decoded2 & H1 & H2 & H12).
  assert (decoded1 = [sample_joint 0 0]) as Heq1
    by (vm_compute in H1; injection H1 as <-; reflexivity).
  assert (decoded2 = [sample_joint 1 2]) as Heq2
    by (vm_compute in H2; injection H2 as <-; reflexivity).
  rewrite Heq1 in H1, H12. rewrite Heq2 in H2, H12.
  exact (conj H1 (conj H2 H12)).
Defined.

(** A scene results exactly for well-sized buffers. *)
Lemma PhysicsScene_new_checks (rigidbody_bytes joint_bytes : list byte) :
  (∃ scene, PhysicsScene_new rigidbody_bytes joint_bytes = inr scene)
  ↔ length rigidbody_bytes ≠ 0 ∧ length rigidbody_bytes mod 72 = 0
    ∧ length joint_bytes mod 108 = 0.
Proof.
  unfold PhysicsScene_new.
  rewrite !DeserializeRigidbodies_cases, !DeserializeJoints_cases.
  destruct (decide (length rigidbody_bytes = 0)) as [Hz|Hz];
    destruct (decide (length rigidbody_bytes `mod` 72 = 0)) as [Hm|Hm];
    destruct (decide (length joint_bytes `mod` 108 = 0)) as [Hj|Hj];
    split; try (intros [scene Hscene]; done); try tauto; eauto.
Qed.

(** X6. The scene constructor decodes the rigid bodies first: their error is
    the one reported whatever the joint buffer holds, the joint error is
    reported only for well-sized rigid bodies, and a scene that results holds
    what the two decoders returned, one record per chunk. *)
Theorem PhysicsScene_new_outcomes (rigidbody_bytes joint_bytes : list byte) :
  (PhysicsScene_new rigidbody_bytes joint_bytes = inl EmptyInput
     ↔ length rigidbody_bytes = 0)
  ∧ (PhysicsScene_new rigidbody_bytes joint_bytes = inl InvalidSize
     ↔ length rigidbody_bytes mod 72 ≠ 0)
  ∧ (PhysicsScene_new rigidbody_bytes joint_bytes = inl InvalidJointSize
     ↔ length rigidbody_bytes ≠ 0 ∧ length rigidbody_bytes mod 72 = 0
       ∧ length joint_bytes mod 108 ≠ 0)
  ∧ ((∃ scene, PhysicsScene_new rigidbody_bytes joint_bytes = inr scene)
     ↔ length rigidbody_bytes ≠ 0 ∧ length rigidbody_bytes mod 72 = 0
       ∧ length joint_bytes mod 108 = 0)
  ∧ (∀ scene, PhysicsScene_new rigidbody_bytes joint_bytes = inr scene →
       DeserializeRigidbodies rigidbody_bytes = inr (GetRigidBodies scene)
       ∧ DeserializeJoints joint_bytes = inr (GetJoints scene)
       ∧ length (GetRigidBodies scene) = length rigidbody_bytes / 72
       ∧ length (GetJoints scene) = length joint_bytes / 108).
Proof.
  unfold PhysicsScene_new.
  rewrite !DeserializeRigidbodies_cases, !DeserializeJoints_cases.
  unfold EmptyInput, InvalidSize, InvalidJointSize.
  assert (Hzero : length rigidbody_bytes = 0 → length rigidbody_bytes mod 72 = 0)
    by (intros ->; reflexivity).
  destruct (decide (length rigidbody_bytes = 0)) as [Hz|Hz];
    destruct (decide (length rigidbody_bytes `mod` 72 = 0)) as [Hm|Hm];
    destruct (decide (length joint_bytes `mod` 108 = 0)) as [Hj|Hj];
    repeat split; intros; destruct_and?; try done; try tauto; eauto;
    try (match goal with H : ∃ _, _ |- _ => destruct H; done end);
    simplify_eq; simpl; try done;
    rewrite ?rigidbodies_loop_spec, ?joints_loop_spec; simpl;
    by rewrite length_map, length_seq.
Qed.

End DecoderExtras.

(** ** More on the constructor *)

Section ConstructorMore.

Implicit Types (this : PhysicsWorld) (scene : PhysicsScene) (buffer : list f32).

Lemma add_rigidbody_stored index rigidbody_item this :
  valid_rigidbody rigidbody_item →
  ∃ rigidbody_data,
    add_rigidbody index rigidbody_item this =
      (rigidbodies_push_back rigidbody_data
         (world_call (addRigidBody (rigidbody_get index)) this), inr tt)
    ∧ rigidbody_built (transform_buffer this) index rigidbody_item rigidbody_data
    ∧ rigidbody_parameters rigidbody_item rigidbody_data.
Proof.
  intros [Hshape Hmode].
  destruct rigidbody_item as [g m st ss sp sr ms ma rd rp ff pm]; simpl in *.
  assert (Hst : st = SPHERE ∨ st = BOX ∨ st = CAPSULE)
    by (unfold SPHERE, BOX, CAPSULE; lia).
  assert (Hpm : pm = FOLLOW_BONE ∨ pm = PHYSICS ∨ pm = PHYSICS_PLUS_BONE)
    by (unfold FOLLOW_BONE, PHYSICS, PHYSICS_PLUS_BONE; lia).
  unfold add_rigidbody, rigidbody_built, rigidbody_parameters,
    motion_state_of_mode, shape_of_type.
  destruct Hst as [-> | [-> | ->]]; destruct Hpm as [-> | [-> | ->]];
    unfold_ctor; simpl; eexists; (split; [reflexivity|]); simpl;
    destruct (f32_ne_zero ms); simpl; repeat split; auto.
Qed.

(** The invalid body decides the exception: its shape type is checked
    before its physics mode, and nothing is stored for it. *)
Lemma add_rigidbody_throws_which index rigidbody_item this :
  ¬ valid_rigidbody rigidbody_item →
  add_rigidbody index rigidbody_item this =
    (this, inl (if decide (shape_type rigidbody_item < 3)%N
                then InvalidPhysicsMode else InvalidShape)).
Proof.
  intros Hinvalid.
  destruct rigidbody_item as [g m st ss sp sr ms ma rd rp ff pm].
  unfold valid_rigidbody in Hinvalid; simpl in *.
  unfold add_rigidbody; simpl.
  case_decide as Hst.
  - assert (Hcases : st = SPHERE ∨ st = BOX ∨ st = CAPSULE)
      by (unfold SPHERE, BOX, CAPSULE; lia).
    assert (Hpm : (3 ≤ pm)%N) by lia.
    destruct (N.eqb_spec pm FOLLOW_BONE) as [->|_];
      [unfold FOLLOW_BONE in Hpm; lia|].
    destruct (N.eqb_spec pm PHYSICS) as [->|_]; [unfold PHYSICS in Hpm; lia|].
    destruct (N.eqb_spec pm PHYSICS_PLUS_BONE) as [->|_];
      [unfold PHYSICS_PLUS_BONE in Hpm; lia|].
    destruct Hcases as [-> | [-> | ->]]; reflexivity.
  - destruct (N.eqb_spec st BOX) as [->|_]; [unfold BOX in Hst; lia|].
    destruct (N.eqb_spec st SPHERE) as [->|_]; [unfold SPHERE in Hst; lia|].
    destruct (N.eqb_spec st CAPSULE) as [->|_]; [unfold CAPSULE in Hst; lia|].
    reflexivity.
Qed.

Lemma rigidbodies_for_stored items k this :
  Forall valid_rigidbody items →
  ∃ this' added,
    rigidbodies_for items k this = (this', inr tt)
    ∧ world this' =
        world this ++ map (λ i, addRigidBody (rigidbody_get i)) (seq k (length items))
    ∧ joints this' = joints this
    ∧ transform_buffer this' = transform_buffer this
    ∧ rigidbodies this' = rigidbodies this ++ added
    ∧ length added = length items
    ∧ ∀ j rigidbody_item, items !! j = Some rigidbody_item →
        ∃ rigidbody_data,
          added !! j = Some rigidbody_data
          ∧ rigidbody_built (transform_buffer this) (k + j) rigidbody_item rigidbody_data
          ∧ rigidbody_parameters rigidbody_item rigidbody_data.
Proof.
  intros Hvalid. revert k this.
  induction Hvalid as [|item items Hitem _ IH]; intros k this.
  - exists this, []. simpl. rewrite !app_nil_r. repeat split; try done.
  - destruct (add_rigidbody_stored k item this Hitem) as (d & Hadd & Hbuilt & Hparams).
    destruct (IH (S k)
                (rigidbodies_push_back d
                   (world_call (addRigidBody (rigidbody_get k)) this)))
      as (this' & added & Hfor & Hworld & Hjoints & Hbuffer & Hbodies & Hlen & Hall).
    exists this', (d :: added). simpl.
    unfold mbind, Ctor_bind at 1. rewrite Hadd, Hfor.
    repeat split; try done.
    + rewrite Hworld. simpl. by rewrite <- app_assoc.
    + rewrite Hbodies. simpl. by rewrite <- app_assoc.
    + simpl. by rewrite Hlen.
    + intros [|j] rigidbody_item Hlookup; simpl in Hlookup.
      * injection Hlookup as <-. exists d. by rewrite Nat.add_0_r.
      * destruct (Hall j rigidbody_item Hlookup) as (d' & Hd' & Hbuilt' & Hparams').
        exists d'. split; [done|].
        by replace (k + S j) with (S k + j) by lia.
Qed.

(** The loop over the bodies stops at the first invalid one: the bodies
    before it were added to the world and stored. *)
Lemma rigidbodies_for_first_invalid before bad after k this :
  Forall valid_rigidbody before →
  ¬ valid_rigidbody bad →
  ∃ this',
    rigidbodies_for (before ++ bad :: after) k this =
      (this', inl (if decide (shape_type bad < 3)%N
                   then InvalidPhysicsMode else InvalidShape))
    ∧ world this' =
        world this ++ map (λ i, addRigidBody (rigidbody_get i)) (seq k (length before))
    ∧ length (rigidbodies this') = length (rigidbodies this) + length before.
Proof.
  intros Hbefore Hbad. revert k this.
  induction Hbefore as [|item items Hitem _ IH]; intros k this.
  - exists this. simpl. unfold mbind, Ctor_bind at 1.
    rewrite add_rigidbody_throws_which by done.
    rewrite app_nil_r. split; [done|]. split; [done|lia].
  - destruct (add_rigidbody_stored k item this Hitem) as (d & Hadd & _).
    destruct (IH (S k)
                (rigidbodies_push_back d
                   (world_call (addRigidBody (rigidbody_get k)) this)))
      as (this' & Hfor & Hworld & Hlen).
    exists this'. simpl. unfold mbind, Ctor_bind at 1. rewrite Hadd, Hfor.
    split; [done|]. split.
    + rewrite Hworld. simpl. by rewrite <- app_assoc.
    + rewrite Hlen. simpl. rewrite length_app. simpl. lia.
Qed.

Lemma joints_for_world items this :
  Forall (λ joint_item,
            ¬ index_out_of_range (length (rigidbodies this)) joint_item) items →
  ∃ this',
    joints_for items this = (this', inr tt)
    ∧ world this' =
        world this
        ++ map (λ i, addConstraint (joint_get i) true)
             (seq (length (joints this)) (length items)).
Proof.
  revert this. induction items as [|item items IH]; intros this Hall.
  - exists this. simpl. by rewrite app_nil_r.
  - apply Forall_cons in Hall as [Hitem Hall].
    simpl. unfold mbind, Ctor_bind at 1. rewrite add_joint_ok by done.
    destruct (IH (joints_push_back (constraint_of (rigidbodies this) item)
                    (world_call (addConstraint (joint_get (length (joints this))) true)
                       this)) Hall)
      as (this' & -> & Hworld).
    exists this'. split; [done|].
    rewrite Hworld. simpl. rewrite length_app, <- app_assoc. simpl.
    by replace (length (joints this) + 1) with (S (length (joints this))) by lia.
Qed.

(** A successful construction passed the three checks. *)
Lemma PhysicsWorld_new_inr_checks scene buffer this :
  PhysicsWorld_new scene buffer = (this, inr tt) →
  length buffer = length (GetRigidBodies scene) * 16
  ∧ Forall valid_rigidbody (GetRigidBodies scene)
  ∧ Forall (λ joint_item,
              ¬ index_out_of_range (length (GetRigidBodies scene)) joint_item)
           (GetJoints scene).
Proof.
  intros Hnew.
  destruct (PhysicsWorld_new_throws scene buffer) as (Hsize & Hbody & Hjoint).
  destruct (decide (length buffer = length (GetRigidBodies scene) * 16))
    as [Hlen|Hlen]; [|rewrite Hsize in Hnew by done; discriminate].
  destruct (decide (Forall valid_rigidbody (GetRigidBodies scene)))
    as [Hvalid|Hinvalid].
  2: { apply not_Forall_Exists in Hinvalid; [|apply _].
       destruct (Hbody Hlen Hinvalid) as (? & ? & Heq & _).
       rewrite Heq in Hnew. discriminate. }
  destruct (decide (Forall (λ joint_item,
              ¬ index_out_of_range (length (GetRigidBodies scene)) joint_item)
              (GetJoints scene))) as [Hrange|Hout]; [done|].
  apply not_Forall_Exists in Hout; [|apply _].
  assert (Hex : Exists (index_out_of_range (length (GetRigidBodies scene)))
                  (GetJoints scene)).
  { eapply Exists_impl; [exact Hout|]. simpl. intros j Hj.
    by destruct (decide (index_out_of_range (length (GetRigidBodies scene)) j)). }
  destruct (Hjoint Hlen Hvalid Hex) as (? & Heq).
  rewrite Heq in Hnew. discriminate.
Qed.

(** Everything a successful construction leaves behind. *)
Lemma PhysicsWorld_new_stored scene buffer this :
  PhysicsWorld_new scene buffer = (this, inr tt) →
  world this =
    world (PhysicsWorld_init buffer)
    ++ map (λ i, addRigidBody (rigidbody_get i)) (seq 0 (length (GetRigidBodies scene)))
    ++ map (λ i, addConstraint (joint_get i) true) (seq 0 (length (GetJoints scene)))
  ∧ length (rigidbodies this) = length (GetRigidBodies scene)
  ∧ joints this = map (constraint_of (rigidbodies this)) (GetJoints scene)
  ∧ ∀ i rigidbody_item, GetRigidBodies scene !! i = Some rigidbody_item →
      ∃ rigidbody_data,
        rigidbodies this !! i = Some rigidbody_data
        ∧ rigidbody_built buffer i rigidbody_item rigidbody_data
        ∧ rigidbody_parameters rigidbody_item rigidbody_data.
Proof.
  intros Hnew.
  destruct (PhysicsWorld_new_inr_checks _ _ _ Hnew) as (Hsize & Hvalid & Hrange).
  rewrite PhysicsWorld_new_unfold, decide_True in Hnew by done.
  destruct (rigidbodies_for_stored (GetRigidBodies scene) 0 (PhysicsWorld_init buffer) Hvalid)
    as (this1 & added & Hfor & Hworld1 & Hjoints1 & Hbuffer1 & Hbodies1 & Hlen1 & Hstored).
  rewrite Hfor in Hnew.
  simpl in Hjoints1, Hbuffer1, Hbodies1, Hstored.
  assert (Hrange1 : Forall (λ joint_item,
            ¬ index_out_of_range (length (rigidbodies this1)) joint_item)
            (GetJoints scene)).
  { by rewrite Hbodies1, Hlen1. }
  destruct (joints_for_world (GetJoints scene) this1 Hrange1) as (this2 & Hfor2 & Hworld2).
  destruct (joints_for_ok (GetJoints scene) this1 Hrange1)
    as (this3 & Hfor3 & Hbodies3 & _ & Hjoints3).
  assert (this2 = this) as -> by congruence.
  assert (this3 = this) as -> by congruence.
  split.
  { rewrite Hworld2, Hworld1, Hjoints1. simpl. reflexivity. }
  split; [by rewrite Hbodies3, Hbodies1|]. split.
  { by rewrite Hjoints3, Hjoints1, Hbodies3. }
  intros i item Hi. rewrite Hbodies3, Hbodies1. by apply Hstored.
Qed.

End ConstructorMore.

Section ConstructorExtras.

Set Warnings "-clear-no-such-hyp".

Implicit Types (this : PhysicsWorld) (scene : PhysicsScene) (buffer : list f32).

Lemma Forall_Exists_not {A : Type} (P : A → Prop) (l : list A) :
  Forall P l → Exists (λ a, ¬ P a) l → False.
Proof.
  intros Hall Hex. apply Exists_exists in Hex as (a & Ha & Hbad).
  by eapply Forall_forall in Hall.
Qed.

Lemma Forall_not_Exists {A : Type} (P : A → Prop) (l : list A) :
  Forall (λ a, ¬ P a) l → Exists P l → False.
Proof.
  intros Hall Hex. apply Exists_exists in Hex as (a & Ha & Hbad).
  by eapply Forall_forall in Hall.
Qed.

(** The four ways the constructor ends. *)
Lemma PhysicsWorld_new_classify scene buffer :
  let count := length (GetRigidBodies scene) in
  (length buffer ≠ count * 16
   ∧ PhysicsWorld_new scene buffer = (PhysicsWorld_init buffer, inl SizeMismatch))
  ∨ (length buffer = count * 16
     ∧ Exists (λ rigidbody_item, ¬ valid_rigidbody rigidbody_item) (GetRigidBodies scene)
     ∧ ∃ this e, PhysicsWorld_new scene buffer = (this, inl e)
                 ∧ (e = InvalidShape ∨ e = InvalidPhysicsMode))
  ∨ (length buffer = count * 16
     ∧ Forall valid_rigidbody (GetRigidBodies scene)
     ∧ Exists (index_out_of_range count) (GetJoints scene)
     ∧ ∃ this, PhysicsWorld_new scene buffer = (this, inl InvalidIndex))
  ∨ (length buffer = count * 16
     ∧ Forall valid_rigidbody (GetRigidBodies scene)
     ∧ Forall (λ joint_item, ¬ index_out_of_range count joint_item) (GetJoints scene)
     ∧ ∃ this, PhysicsWorld_new scene buffer = (this, inr tt)).
Proof.
  intros count. unfold count.
  destruct (PhysicsWorld_new_throws scene buffer) as (Hsize & Hbody & Hjoint).
  destruct (decide (length buffer = length (GetRigidBodies scene) * 16))
    as [Hlen|Hlen]; [|left; by split; [|apply Hsize]].
  right.
  destruct (decide (Forall valid_rigidbody (GetRigidBodies scene)))
    as [Hvalid|Hinvalid].
  2: { apply not_Forall_Exists in Hinvalid; [|apply _]. left.
       split; [done|]. split; [done|]. by apply Hbody. }
  right.
  destruct (decide (Forall (λ joint_item,
              ¬ index_out_of_range (length (GetRigidBodies scene)) joint_item)
              (GetJoints scene))) as [Hrange|Hout].
  - right. destruct (PhysicsWorld_new_ok scene buffer Hlen Hvalid Hrange)
      as (this & Hnew & _).
    repeat split; try done. by exists this.
  - left. apply not_Forall_Exists in Hout; [|apply _].
    assert (Hex : Exists (index_out_of_range (length (GetRigidBodies scene)))
                    (GetJoints scene)).
    { eapply Exists_impl; [exact Hout|]. simpl. intros j Hj.
      by destruct (decide (index_out_of_range (length (GetRigidBodies scene)) j)). }
    repeat split; try done. by apply Hjoint.
Qed.

(** X7. The constructor succeeds exactly when the buffer has sixteen floats per
    rigid body, every rigid body has a valid shape type and physics mode, and
    every joint names two existing bodies.  Otherwise it throws, and the
    exception follows the order of the checks: the buffer size first, then
    the rigid bodies, then the joints. *)
Theorem PhysicsWorld_new_outcomes scene buffer :
  let count := length (GetRigidBodies scene) in
  ((∃ this, PhysicsWorld_new scene buffer = (this, inr tt))
   ↔ length buffer = count * 16
     ∧ Forall valid_rigidbody (GetRigidBodies scene)
     ∧ Forall (λ joint_item, ¬ index_out_of_range count joint_item) (GetJoints scene))
  ∧ ((∃ this, PhysicsWorld_new scene buffer = (this, inl SizeMismatch))
     ↔ length buffer ≠ count * 16)
  ∧ ((∃ this e, PhysicsWorld_new scene buffer = (this, inl e)
                ∧ (e = InvalidShape ∨ e = InvalidPhysicsMode))
     ↔ length buffer = count * 16
       ∧ Exists (λ rigidbody_item, ¬ valid_rigidbody rigidbody_item)
           (GetRigidBodies scene))
  ∧ ((∃ this, PhysicsWorld_new scene buffer = (this, inl InvalidIndex))
     ↔ length buffer = count * 16
       ∧ Forall valid_rigidbody (GetRigidBodies scene)
       ∧ Exists (index_out_of_range count) (GetJoints scene)).
Proof.
  intros count.
  pose proof (Forall_Exists_not valid_rigidbody (GetRigidBodies scene)) as Hno1.
  pose proof (Forall_not_Exists (index_out_of_range count) (GetJoints scene)) as Hno2.
  destruct (PhysicsWorld_new_classify scene buffer)
    as [(Hlen & Hnew)
       |[(Hlen & Hbad & this0 & e0 & Hnew & He0)
        |[(Hlen & Hvalid & Hbad & this0 & Hnew)
         |(Hlen & Hvalid & Hrange & this0 & Hnew)]]];
    fold count in Hlen; rewrite Hnew;
    unfold InvalidShape, InvalidPhysicsMode, InvalidIndex, SizeMismatch in *;
    clear Hnew; naive_solver.
Qed.

Lemma omap_fmap_Some {A B C : Type} (f : B → option C) (g : A → B) (h : A → C)
    (l : list A) :
  (∀ a, f (g a) = Some (h a)) → omap f (map g l) = map h l.
Proof.
  intros Hfg. induction l as [|a l IH]; [reflexivity|].
  csimpl. rewrite Hfg. csimpl. by rewrite IH.
Qed.

Lemma omap_fmap_None {A B C : Type} (f : B → option C) (g : A → B) (l : list A) :
  (∀ a, f (g a) = None) → omap f (map g l) = [].
Proof.
  intros Hfg. induction l as [|a l IH]; [reflexivity|].
  csimpl. by rewrite Hfg.
Qed.

(** What a world has added to the dynamics world during its life: the
    ground and its bodies, its constraints, and it has removed nothing. *)
Lemma reachable_world_calls scene this :
  reachable scene this →
  added_rigidbodies (world this)
    = ground_rigidbody_get :: map rigidbody_get (seq 0 (length (rigidbodies this)))
  ∧ added_constraints (world this) = map joint_get (seq 0 (length (joints this)))
  ∧ removed_rigidbodies (world this) = []
  ∧ removed_constraints (world this) = [].
Proof.
  induction 1 as [buffer this Hnew|this dt ms fs calls _ IH|this buffer _ IH Hlen].
  - destruct (PhysicsWorld_new_stored _ _ _ Hnew) as (Hworld & Hbodies & Hjoints & _).
    rewrite Hworld, Hbodies, Hjoints, length_map.
    unfold added_rigidbodies, added_constraints, removed_rigidbodies,
      removed_constraints.
    rewrite !omap_app. simpl.
    repeat split;
      repeat first [ rewrite (omap_fmap_Some _ _ rigidbody_get) by done
                   | rewrite (omap_fmap_Some _ _ joint_get) by done
                   | rewrite omap_fmap_None by done ];
      by rewrite ?app_nil_r.
  - destruct IH as (Hb & Hc & Hrb & Hrc). simpl.
    unfold added_rigidbodies, added_constraints, removed_rigidbodies,
      removed_constraints in *.
    rewrite !omap_app, Hb, Hc, Hrb, Hrc. simpl. by rewrite !app_nil_r.
  - exact IH.
Qed.

Lemma rigidbodies_for_filter items k this :
  filter_callback (rigidbodies_for items k this).1 = filter_callback this.
Proof.
  revert k this. induction items as [|item items IH]; intros k this; [reflexivity|].
  simpl. unfold mbind, Ctor_bind at 1.
  destruct (decide (valid_rigidbody item)) as [Hv|Hv].
  - destruct (add_rigidbody_ok k item this Hv) as (d & -> & _). by rewrite IH.
  - by destruct (add_rigidbody_throws k item this Hv) as (e & -> & _).
Qed.

Lemma joints_for_filter items this :
  filter_callback (joints_for items this).1 = filter_callback this.
Proof.
  revert this. induction items as [|item items IH]; intros this; [reflexivity|].
  simpl. unfold mbind, Ctor_bind at 1.
  destruct (decide (index_out_of_range (length (rigidbodies this)) item)) as [Ho|Hi].
  - by rewrite add_joint_throws.
  - rewrite add_joint_ok by done. by rewrite IH.
Qed.

(** The collision filter is bound to the ground before anything can throw. *)
Lemma PhysicsWorld_new_filter scene buffer :
  filter_callback (PhysicsWorld_new scene buffer).1
  = {| ground_proxy := getBroadphaseProxy ground_rigidbody_get |}.
Proof.
  rewrite PhysicsWorld_new_unfold. case_decide; [|reflexivity].
  pose proof (rigidbodies_for_filter (GetRigidBodies scene) 0 (PhysicsWorld_init buffer))
    as Hbodies.
  destruct (rigidbodies_for _ _ _) as [this [e|[]]]; simpl in *; [done|].
  by rewrite joints_for_filter.
Qed.

(** X8. The exception of the first invalid rigid body is the one thrown: an
    invalid shape type if it has one, an invalid physics mode otherwise.
    The bodies before it were already added to the dynamics world. *)
Theorem first_invalid_rigidbody_decides scene buffer before bad after :
  GetRigidBodies scene = before ++ bad :: after →
  length buffer = length (GetRigidBodies scene) * 16 →
  Forall valid_rigidbody before →
  ¬ valid_rigidbody bad →
  ∃ this,
    PhysicsWorld_new scene buffer =
      (this, inl (if decide (shape_type bad < 3)%N
                  then InvalidPhysicsMode else InvalidShape))
    ∧ added_rigidbodies (world this)
      = ground_rigidbody_get :: map rigidbody_get (seq 0 (length before))
    ∧ length (rigidbodies this) = length before.
Proof.
  intros Hbodies Hsize Hbefore Hbad.
  rewrite PhysicsWorld_new_unfold, decide_True by done. rewrite Hbodies.
  destruct (rigidbodies_for_first_invalid before bad after 0
              (PhysicsWorld_init buffer) Hbefore Hbad)
    as (this & -> & Hworld & Hlen).
  exists this. split; [done|]. split; [|done].
  rewrite Hworld. unfold added_rigidbodies. rewrite omap_app. simpl.
  by rewrite (omap_fmap_Some _ _ rigidbody_get).
Qed.

(** A valid sphere, then a body of shape type 3: the first is added, the
    second makes the constructor throw the invalid-shape exception. *)
Lemma first_invalid_rigidbody_decides_witness :
  ∃ this,
    PhysicsWorld_new (sample_scene2 SPHERE PHYSICS 3 PHYSICS []) sample_transform2
    = (this, inl InvalidShape)
    ∧ added_rigidbodies (world this) = [ground_rigidbody_get; rigidbody_get 0]
    ∧ length (rigidbodies this) = 1.
Proof.
  apply (first_invalid_rigidbody_decides
           (sample_scene2 SPHERE PHYSICS 3 PHYSICS []) sample_transform2
           [sample_rigidbody SPHERE PHYSICS] (sample_rigidbody 3 PHYSICS) []).
  - reflexivity.
  - reflexivity.
  - apply Forall_cons_2; [|apply Forall_nil_2]. split; reflexivity.
  - intros [Hshape _]. vm_compute in Hshape. discriminate.
Defined.

(** X9. A constructed world holds a copy of the initial buffer and the
    collision filter bound to the ground; the dynamics world was given the
    gravity, the ground and the filter, then the body of every scene body in
    scene order, then the constraint of every joint in scene order, each
    with collisions between the linked bodies disabled. *)
Theorem constructed_world_calls scene buffer this :
  PhysicsWorld_new scene buffer = (this, inr tt) →
  transform_buffer this = buffer
  ∧ filter_callback this = {| ground_proxy := getBroadphaseProxy ground_rigidbody_get |}
  ∧ world this =
      [ setGravity (mkbtVector3 f32_0_0 f32_minus_9_81 f32_0_0);
        addRigidBody ground_rigidbody_get;
        setOverlapFilterCallback
          {| ground_proxy := getBroadphaseProxy ground_rigidbody_get |} ]
      ++ map (λ i, addRigidBody (rigidbody_get i)) (seq 0 (length (GetRigidBodies scene)))
      ++ map (λ i, addConstraint (joint_get i) true) (seq 0 (length (GetJoints scene)))
  ∧ length (rigidbodies this) = length (GetRigidBodies scene)
  ∧ length (joints this) = length (GetJoints scene).
Proof.
  intros Hnew.
  destruct (PhysicsWorld_new_stored _ _ _ Hnew) as (Hworld & Hbodies & Hjoints & _).
  destruct (PhysicsWorld_new_inr _ _ _ Hnew) as (Hbuffer & _).
  split; [done|]. split.
  { pose proof (PhysicsWorld_new_filter scene buffer) as Hfilter.
    by rewrite Hnew in Hfilter. }
  split; [exact Hworld|]. split; [done|]. by rewrite Hjoints, length_map.
Qed.

Lemma constructed_world_calls_witness :
  world (sample_world2 SPHERE PHYSICS BOX FOLLOW_BONE [sample_joint 0 1])
  = [ setGravity (mkbtVector3 f32_0_0 f32_minus_9_81 f32_0_0);
      addRigidBody ground_rigidbody_get;
      setOverlapFilterCallback
        {| ground_proxy := getBroadphaseProxy ground_rigidbody_get |};
      addRigidBody (rigidbody_get 0);
      addRigidBody (rigidbody_get 1);
      addConstraint (joint_get 0) true ].
Proof.
  destruct (constructed_world_calls
              (sample_scene2 SPHERE PHYSICS BOX FOLLOW_BONE [sample_joint 0 1])
              sample_transform2
              (sample_world2 SPHERE PHYSICS BOX FOLLOW_BONE [sample_joint 0 1]) eq_refl)
    as (_ & _ & Hworld & _).
  exact Hworld.
Defined.

(** X10. Whatever a world went through, its destructor removes from the dynamics
    world exactly the rigid bodies and the constraints that were added to it,
    each once, and nothing was removed before. *)
Theorem destructor_removes_what_was_added scene this :
  reachable scene this →
  removed_rigidbodies (PhysicsWorld_delete this) = added_rigidbodies (world this)
  ∧ removed_constraints (PhysicsWorld_delete this) = added_constraints (world this)
  ∧ NoDup (removed_rigidbodies (PhysicsWorld_delete this))
  ∧ NoDup (removed_constraints (PhysicsWorld_delete this))
  ∧ removed_rigidbodies (world this) = []
  ∧ removed_constraints (world this) = [].
Proof.
  intros Hreach.
  destruct (reachable_world_calls _ _ Hreach) as (Hb & Hc & Hrb & Hrc).
  rewrite Hb, Hc, PhysicsWorld_delete_calls.
  unfold removed_rigidbodies, removed_constraints.
  simpl. rewrite !omap_app.
  repeat first [ rewrite (omap_fmap_Some _ _ rigidbody_get) by done
               | rewrite (omap_fmap_Some _ _ joint_get) by done
               | rewrite omap_fmap_None by done ].
  simpl. rewrite ?app_nil_r.
  assert (Hnodup_b : NoDup (ground_rigidbody_get
            :: map rigidbody_get (seq 0 (length (rigidbodies this))))).
  { apply NoDup_cons. split.
    - intros Hin. apply list_elem_of_fmap in Hin as (i & Hi & _). discriminate.
    - apply NoDup_fmap_2; [|apply NoDup_seq]. by intros i1 i2 [= ->]. }
  assert (Hnodup_c : NoDup (map joint_get (seq 0 (length (joints this))))).
  { apply NoDup_fmap_2; [|apply NoDup_seq]. by intros i1 i2 [= ->]. }
  repeat split; done.
Qed.

Lemma destructor_removes_what_was_added_witness :
  removed_rigidbodies
    (PhysicsWorld_delete
       (Step (sample_world2 SPHERE PHYSICS BOX FOLLOW_BONE [sample_joint 0 1])
          f32_1_0 f32_1_0 f32_1_0 []))
  = [ground_rigidbody_get; rigidbody_get 0; rigidbody_get 1]
  ∧ removed_constraints
      (PhysicsWorld_delete
         (Step (sample_world2 SPHERE PHYSICS BOX FOLLOW_BONE [sample_joint 0 1])
            f32_1_0 f32_1_0 f32_1_0 []))
    = [joint_get 0].
Proof.
  assert (Hreach : reachable
            (sample_scene2 SPHERE PHYSICS BOX FOLLOW_BONE [sample_joint 0 1])
            (Step (sample_world2 SPHERE PHYSICS BOX FOLLOW_BONE [sample_joint 0 1])
               f32_1_0 f32_1_0 f32_1_0 [])).
  { apply reachable_Step. by apply (reachable_new _ sample_transform2). }
  destruct (destructor_removes_what_was_added _ _ Hreach) as (Hb & Hc & _).
  split; [exact Hb|exact Hc].
Defined.

(** X11. For every scene body a constructed world stores, at the same index, the
    collision shape of its shape type and size, an engine body created with
    its dampings, restitution and friction and with additional damping on,
    never deactivated, flagged kinematic exactly in mode FollowBone, and
    placed at the transform its slot of the initial buffer encodes. *)
Theorem constructed_body_parameters scene buffer this i rigidbody_item :
  PhysicsWorld_new scene buffer = (this, inr tt) →
  GetRigidBodies scene !! i = Some rigidbody_item →
  ∃ rigidbody_data,
    let info := constructionInfo (rigidbody rigidbody_data) in
    rigidbodies this !! i = Some rigidbody_data
    ∧ shape_of_type (shape_type rigidbody_item) (shape_size rigidbody_item)
        (shape rigidbody_data)
    ∧ m_collisionShape info = shape rigidbody_data
    ∧ m_motionState info = motion_state rigidbody_data
    ∧ m_linearDamping info = move_attenuation rigidbody_item
    ∧ m_angularDamping info = rotation_damping rigidbody_item
    ∧ m_restitution info = repulsion rigidbody_item
    ∧ m_friction info = friction_force rigidbody_item
    ∧ m_additionalDamping info = true
    ∧ m_activationState1 (rigidbody rigidbody_data) = DISABLE_DEACTIVATION
    ∧ (N.testbit (getCollisionFlags (rigidbody rigidbody_data)) 1 = true
       ↔ physics_mode rigidbody_item = FOLLOW_BONE)
    ∧ m_worldTransform (rigidbody rigidbody_data)
      = setFromOpenGLMatrix (slot buffer i) 0.
Proof.
  intros Hnew Hi.
  destruct (PhysicsWorld_new_stored _ _ _ Hnew) as (_ & _ & _ & Hstored).
  destruct (Hstored i rigidbody_item Hi)
    as (d & Hd & (_ & Hstate & Hshape & _ & _ & Htransform)
          & (Hof & Hlin & Hang & Hres & Hfri & Hadd & Hact & Hflag)).
  exists d. simpl. repeat split; try done.
  - rewrite Hflag. by intros ->%N.eqb_eq.
  - rewrite Hflag. by intros ->.
  - by rewrite Htransform, setFromOpenGLMatrix_slot.
Qed.

Lemma constructed_body_parameters_witness :
  ∃ rigidbody_data,
    rigidbodies (sample_world2 SPHERE PHYSICS BOX FOLLOW_BONE []) !! 1
    = Some rigidbody_data
    ∧ shape rigidbody_data = btBoxShape (mkbtVector3 f32_1_0 f32_0_0 f32_0_0)
    ∧ N.testbit (getCollisionFlags (rigidbody rigidbody_data)) 1 = true.
Proof.
  destruct (constructed_body_parameters
              (sample_scene2 SPHERE PHYSICS BOX FOLLOW_BONE []) sample_transform2
              (sample_world2 SPHERE PHYSICS BOX FOLLOW_BONE []) 1
              (sample_rigidbody BOX FOLLOW_BONE) eq_refl eq_refl)
    as (d & Hd & Hshape & _ & _ & _ & _ & _ & _ & _ & _ & Hflag & _).
  exists d. split; [exact Hd|]. split.
  - destruct Hshape as [[Hs _]|[[_ Hs]|[Hs _]]]; [discriminate|exact Hs|discriminate].
  - by apply Hflag.
Defined.

(** X12. The constructor reads neither the collision group, nor the collision
    mask, nor the shape position, nor the shape rotation of a rigid body:
    with any other values in these four fields it returns the same members
    and the same outcome. *)
Theorem unread_rigidbody_fields scene buffer (other : RigidBody → RigidBody) :
  PhysicsWorld_new
    {| GetRigidBodies :=
         map (λ r, with_unread_fields (other r) r) (GetRigidBodies scene);
       GetJoints := GetJoints scene |} buffer
  = PhysicsWorld_new scene buffer.
Proof.
  rewrite !PhysicsWorld_new_unfold. simpl. rewrite length_map.
  assert (Hbodies : ∀ items k this,
            rigidbodies_for (map (λ r, with_unread_fields (other r) r) items) k this
            = rigidbodies_for items k this).
  { induction items as [|item items IH]; intros k this; [reflexivity|].
    simpl. unfold mbind, Ctor_bind.
    change (add_rigidbody k (with_unread_fields (other item) item) this)
      with (add_rigidbody k item this).
    destruct (add_rigidbody k item this) as [this' [e|[]]]; [reflexivity|apply IH]. }
  by rewrite Hbodies.
Qed.

Lemma set_springs_keeps joint_item (c : btGeneric6DofSpringConstraint) :
  m_rbA (set_springs joint_item c) = m_rbA c
  ∧ m_rbB (set_springs joint_item c) = m_rbB c
  ∧ m_frameInA (set_springs joint_item c) = m_frameInA c
  ∧ m_frameInB (set_springs joint_item c) = m_frameInB c
  ∧ m_useLinearReferenceFrameA (set_springs joint_item c) = m_useLinearReferenceFrameA c
  ∧ linearLowerLimit (set_springs joint_item c) = linearLowerLimit c
  ∧ linearUpperLimit (set_springs joint_item c) = linearUpperLimit c
  ∧ angularLowerLimit (set_springs joint_item c) = angularLowerLimit c
  ∧ angularUpperLimit (set_springs joint_item c) = angularUpperLimit c.
Proof.
  unfold set_springs.
  destruct (f32_ne_zero (x (position_spring joint_item)));
    destruct (f32_ne_zero (y (position_spring joint_item)));
    destruct (f32_ne_zero (z (position_spring joint_item)));
    destruct (f32_ne_zero (x (rotation_spring joint_item)));
    destruct (f32_ne_zero (y (rotation_spring joint_item)));
    destruct (f32_ne_zero (z (rotation_spring joint_item)));
    repeat split.
Qed.

(** X13. The constraint of a joint in a constructed world links the two bodies
    the joint names, both existing; its frame in each body is the inverse of
    the transform that the body's slot of the initial buffer encodes, times
    the joint frame; the linear reference frame is that of body A, and its
    four limits are the joint's minima and maxima. *)
Theorem constructed_constraint_frames scene buffer this n joint_item :
  PhysicsWorld_new scene buffer = (this, inr tt) →
  GetJoints scene !! n = Some joint_item →
  let a := N.to_nat (rigidbody_a_index joint_item) in
  let b := N.to_nat (rigidbody_b_index joint_item) in
  ∃ constraint,
    joints this !! n = Some constraint
    ∧ a < length (GetRigidBodies scene)
    ∧ b < length (GetRigidBodies scene)
    ∧ m_rbA constraint = rigidbody_get a
    ∧ m_rbB constraint = rigidbody_get b
    ∧ m_frameInA constraint =
        transform_mul
          (transform_inverse (transform_value (setFromOpenGLMatrix (slot buffer a) 0)))
          (joint_transform joint_item)
    ∧ m_frameInB constraint =
        transform_mul
          (transform_inverse (transform_value (setFromOpenGLMatrix (slot buffer b) 0)))
          (joint_transform joint_item)
    ∧ m_useLinearReferenceFrameA constraint = true
    ∧ linearLowerLimit constraint = btVector3_of (position_min joint_item)
    ∧ linearUpperLimit constraint = btVector3_of (position_max joint_item)
    ∧ angularLowerLimit constraint = btVector3_of (rotation_min joint_item)
    ∧ angularUpperLimit constraint = btVector3_of (rotation_max joint_item).
Proof.
  intros Hnew Hn a b.
  destruct (PhysicsWorld_new_stored _ _ _ Hnew) as (_ & Hlen & Hjoints & Hstored).
  destruct (PhysicsWorld_new_inr_checks _ _ _ Hnew) as (_ & _ & Hrange).
  assert (Hin : ¬ index_out_of_range (length (GetRigidBodies scene)) joint_item).
  { apply (proj1 (Forall_forall _ _) Hrange).
    apply list_elem_of_lookup. by exists n. }
  unfold index_out_of_range in Hin.
  assert (Ha : a < length (GetRigidBodies scene)) by (unfold a; lia).
  assert (Hb : b < length (GetRigidBodies scene)) by (unfold b; lia).
  destruct (lookup_lt_is_Some_2 _ _ Ha) as [item_a Hitem_a].
  destruct (lookup_lt_is_Some_2 _ _ Hb) as [item_b Hitem_b].
  destruct (Hstored a item_a Hitem_a) as (da & Hda & (_ & _ & _ & _ & _ & Hta) & _).
  destruct (Hstored b item_b Hitem_b) as (db & Hdb & (_ & _ & _ & _ & _ & Htb) & _).
  exists (constraint_of (rigidbodies this) joint_item). split.
  { rewrite Hjoints, list_lookup_fmap, Hn. reflexivity. }
  unfold constraint_of, make_constraint. fold a b.
  rewrite (list_lookup_total_correct _ _ _ Hda), (list_lookup_total_correct _ _ _ Hdb).
  match goal with |- context [set_springs joint_item ?c] =>
    destruct (set_springs_keeps joint_item c)
      as (-> & -> & -> & -> & -> & -> & -> & -> & ->)
  end.
  simpl. rewrite Hta, Htb, !setFromOpenGLMatrix_slot. repeat split; done.
Qed.

Lemma constructed_constraint_frames_witness :
  ∃ constraint,
    joints (sample_world2 SPHERE PHYSICS BOX FOLLOW_BONE [sample_joint 0 1]) !! 0
    = Some constraint
    ∧ m_rbA constraint = rigidbody_get 0
    ∧ m_rbB constraint = rigidbody_get 1
    ∧ m_frameInB constraint =
        transform_mul
          (transform_inverse
             (transform_value (setFromOpenGLMatrix (slot sample_transform2 1) 0)))
          (joint_transform (sample_joint 0 1)).
Proof.
  destruct (constructed_constraint_frames
              (sample_scene2 SPHERE PHYSICS BOX FOLLOW_BONE [sample_joint 0 1])
              sample_transform2
              (sample_world2 SPHERE PHYSICS BOX FOLLOW_BONE [sample_joint 0 1])
              0 (sample_joint 0 1) eq_refl eq_refl)
    as (c & Hc & _ & _ & HA & HB & _ & HfB & _).
  exists c. repeat split; assumption.
Defined.

End ConstructorExtras.

(** * The loop over the joints *)

Section JointLoop.

Implicit Types (this : PhysicsWorld) (scene : PhysicsScene) (buffer : list f32).






(** The loop over the joints does not read the [type] field. *)
Lemma joints_for_with_types (t : Joint → u32) items this :
  joints_for (map (λ joint_item, with_type (t joint_item) joint_item) items) this
  = joints_for items this.
Proof.
  revert this. induction items as [|item items IH]; intros this; [reflexivity|].
  simpl. unfold mbind, Ctor_bind.
  change (add_joint (with_type (t item) item) this) with (add_joint item this).
  destruct (add_joint item this) as [this' [e|[]]]; [reflexivity|apply IH].
Qed.

Lemma PhysicsWorld_new_with_types (t : Joint → u32) scene buffer :
  PhysicsWorld_new (with_types t scene) buffer = PhysicsWorld_new scene buffer.
Proof.
  rewrite !PhysicsWorld_new_unfold. simpl.
  case_decide; [|reflexivity].
  destruct (rigidbodies_for _ _ _) as [this [e|[]]];
    [reflexivity|apply joints_for_with_types].
Qed.




(** C10. The constructor does not read the [type] field of a joint. With
    any values in these fields it returns the same members and the same
    outcome as with the scene's own, and as with [SPRING_6DOF] in all of
    them; whether it succeeds depends on the buffer size, the bodies and the
    joints' indices only. Whenever it succeeds, it has built for every
    joint, whatever its type, the six-degree-of-freedom spring constraint
    that it builds for that joint with type [SPRING_6DOF]: the constraint
    is stored at the joint's position, links the joint's two bodies, which
    exist, and was added to the dynamics world. *)
Theorem joint_type_is_ignored scene buffer (t : Joint → u32) :
  let count := length (GetRigidBodies scene) in
  PhysicsWorld_new (with_types t scene) buffer = PhysicsWorld_new scene buffer
  ∧ PhysicsWorld_new scene buffer
    = PhysicsWorld_new (with_types (λ _, SPRING_6DOF) scene) buffer
  ∧ ((∃ this, PhysicsWorld_new (with_types t scene) buffer = (this, inr tt))
     ↔ length buffer = count * 16
       ∧ Forall valid_rigidbody (GetRigidBodies scene)
       ∧ Forall (λ joint_item, ¬ index_out_of_range count joint_item) (GetJoints scene))
  ∧ ∀ this,
      PhysicsWorld_new (with_types t scene) buffer = (this, inr tt) →
      joints this
        = map (λ joint_item,
                 constraint_of (rigidbodies this) (with_type SPRING_6DOF joint_item))
            (GetJoints scene)
      ∧ added_constraints (world this) = map joint_get (seq 0 (length (GetJoints scene)))
      ∧ ∀ n joint_item,
          GetJoints scene !! n = Some joint_item →
          ∃ constraint rigidbody_a rigidbody_b,
            joints this !! n = Some constraint
            ∧ rigidbodies this !! N.to_nat (rigidbody_a_index joint_item)
              = Some rigidbody_a
            ∧ rigidbodies this !! N.to_nat (rigidbody_b_index joint_item)
              = Some rigidbody_b
            ∧ constraint
              = make_constraint (with_type SPRING_6DOF joint_item)
                  (joint_transform joint_item) rigidbody_a rigidbody_b
            ∧ m_rbA constraint = rigidbody_get (N.to_nat (rigidbody_a_index joint_item))
            ∧ m_rbB constraint = rigidbody_get (N.to_nat (rigidbody_b_index joint_item)).
Proof.
  intros count.
  split; [apply PhysicsWorld_new_with_types|].
  split; [symmetry; apply PhysicsWorld_new_with_types|].
  rewrite PhysicsWorld_new_with_types. split.
  { split.
    - intros [this Hnew]. by apply PhysicsWorld_new_inr_checks in Hnew.
    - intros (Hlen & Hvalid & Hrange).
      destruct (PhysicsWorld_new_ok scene buffer Hlen Hvalid Hrange) as (this & Hnew & _).
      by exists this. }
  intros this Hnew.
  destruct (PhysicsWorld_new_inr_checks _ _ _ Hnew) as (_ & _ & Hrange).
  destruct (PhysicsWorld_new_stored _ _ _ Hnew) as (Hworld & Hbodies & Hjoints & _).
  split; [exact Hjoints|]. split.
  { rewrite Hworld. unfold added_constraints. rewrite !omap_app. csimpl.
    rewrite omap_fmap_None by done.
    by rewrite (omap_fmap_Some _ _ joint_get) by done. }
  intros n joint_item Hn.
  assert (Hin : ¬ index_out_of_range count joint_item).
  { apply (proj1 (Forall_forall _ _) Hrange). by eapply list_elem_of_lookup_2. }
  unfold index_out_of_range in Hin. fold count in Hbodies.
  destruct (lookup_lt_is_Some_2 (rigidbodies this)
              (N.to_nat (rigidbody_a_index joint_item))) as [a Ha]; [lia|].
  destruct (lookup_lt_is_Some_2 (rigidbodies this)
              (N.to_nat (rigidbody_b_index joint_item))) as [b Hb]; [lia|].
  exists (constraint_of (rigidbodies this) joint_item), a, b.
  split; [by rewrite Hjoints, list_lookup_fmap, Hn|].
  split; [done|]. split; [done|].
  unfold constraint_of.
  rewrite (list_lookup_total_correct _ _ _ Ha), (list_lookup_total_correct _ _ _ Hb).
  split; [reflexivity|].
  unfold make_constraint.
  by destruct (set_springs_keeps joint_item
       (setAngularUpperLimit
          (setAngularLowerLimit
             (setLinearUpperLimit
                (setLinearLowerLimit
                   (btGeneric6DofSpringConstraint_new
                      (rigidbody_get (N.to_nat (rigidbody_a_index joint_item)))
                      (rigidbody_get (N.to_nat (rigidbody_b_index joint_item)))
                      (transform_mul
                         (transform_inverse
                            (transform_value (m_worldTransform (rigidbody a))))
                         (joint_transform joint_item))
                      (transform_mul
                         (transform_inverse
                            (transform_value (m_worldTransform (rigidbody b))))
                         (joint_transform joint_item))
                      true)
                   (btVector3_of (position_min joint_item)))
                (btVector3_of (position_max joint_item)))
             (btVector3_of (rotation_min joint_item)))
          (btVector3_of (rotation_max joint_item))))
    as (-> & -> & _).
Qed.

(** The sample joint has 7 in its type field, which is no enumerator: the
    world of two sample bodies joined by it is constructed, and holds the
    constraint between body 0 and body 1. *)
Lemma joint_type_is_ignored_witness :
  type (sample_joint 0 1) = 7%N
  ∧ ∃ this constraint,
      PhysicsWorld_new
        (sample_scene2 SPHERE PHYSICS BOX FOLLOW_BONE [sample_joint 0 1])
        sample_transform2
      = (this, inr tt)
      ∧ joints this = [constraint]
      ∧ m_rbA constraint = rigidbody_get 0
      ∧ m_rbB constraint = rigidbody_get 1
      ∧ added_constraints (world this) = [joint_get 0].
Proof.
  split; [reflexivity|].
  pose (scene := sample_scene2 SPHERE PHYSICS BOX FOLLOW_BONE
                   [with_type SPRING_6DOF (sample_joint 0 1)]).
  destruct (joint_type_is_ignored scene sample_transform2 (λ _, 7%N))
    as (_ & _ & _ & Hbuilt).
  eexists _, _. split; [vm_compute; reflexivity|].
  destruct (Hbuilt _ eq_refl) as (Hjoints & Hadded & _).
  split; [exact Hjoints|].
  split; [reflexivity|]. split; [reflexivity|]. exact Hadded.
Defined.

End JointLoop.

(** ** More on the motion states *)

Section MotionStatesMore.

Implicit Types (this : PhysicsWorld) (scene : PhysicsScene) (buffer : list f32).
Implicit Types (state : btMotionState) (T : btTransform).

Lemma lookup_slot buffer i k :
  k < 16 → slot buffer i !! k = buffer !! (16 * i + k).
Proof. intros Hk. unfold slot. by rewrite lookup_take_lt, lookup_drop. Qed.

(** A buffer is what its slots hold. *)
Lemma slots_eq buffer1 buffer2 :
  (∀ i, slot buffer1 i = slot buffer2 i) → buffer1 = buffer2.
Proof.
  intros Hslots. apply list_eq. intros q.
  pose proof (Nat.Div0.div_mod q 16) as Hq.
  pose proof (Nat.mod_upper_bound q 16) as Hk.
  rewrite Hq, <- !lookup_slot by lia. by rewrite Hslots.
Qed.

(** The effect of a write, slot by slot. *)
Lemma slot_setWorldTransform mode i state T buffer s :
  motion_state_of_mode mode i state →
  i * 16 + 16 ≤ length buffer →
  slot (setWorldTransform state T buffer) s
  = if decide (s = i) then written_slot state T buffer else slot buffer s.
Proof.
  intros Hstate Hfits. case_decide as Hs.
  - subst s. destruct Hstate as [[_ ->]|[[_ ->]|[_ ->]]]; cbn [setWorldTransform written_slot].
    + reflexivity.
    + by apply slot_getOpenGLMatrix.
    + rewrite slot_getOpenGLMatrix by done.
      unfold setOrigin. by rewrite setFromOpenGLMatrix_slot.
  - apply slot_ext. intros k Hk.
    eapply setWorldTransform_outside; [exact Hstate|]. lia.
Qed.

(** What a write leaves in its slot depends on that slot only, and a second
    write sees the translation the first one kept. *)
Lemma written_slot_ext mode i state T buffer1 buffer2 :
  motion_state_of_mode mode i state →
  slot buffer1 i = slot buffer2 i →
  written_slot state T buffer1 = written_slot state T buffer2.
Proof.
  intros [[_ ->]|[[_ ->]|[_ ->]]] Hslot; simpl; by rewrite ?Hslot.
Qed.

Lemma written_slot_twice mode i state T1 T2 buffer :
  motion_state_of_mode mode i state →
  i * 16 + 16 ≤ length buffer →
  written_slot state T2 (setWorldTransform state T1 buffer)
  = written_slot state T2 buffer.
Proof.
  intros Hstate Hfits.
  pose proof (slot_setWorldTransform mode i state T1 buffer i Hstate Hfits) as Hslot.
  rewrite decide_True in Hslot by done.
  destruct Hstate as [[_ ->]|[[_ ->]|[_ ->]]]; cbn [written_slot] in *.
  - reflexivity.
  - reflexivity.
  - by rewrite Hslot, setFromOpenGLMatrix_OpenGLMatrix.
Qed.

(** In a reachable world every stored body has the motion state of a mode,
    bound to its index, and its slot lies inside the buffer. *)
Lemma reachable_body scene this i rigidbody_data :
  reachable scene this →
  rigidbodies this !! i = Some rigidbody_data →
  ∃ rigidbody_item,
    GetRigidBodies scene !! i = Some rigidbody_item
    ∧ motion_state_of_mode (physics_mode rigidbody_item) i (motion_state rigidbody_data)
    ∧ i * 16 + 16 ≤ length (transform_buffer this).
Proof.
  intros Hreach Hi.
  pose proof (reachable_invariant _ _ Hreach) as Hinv.
  destruct Hinv as (Hsize & Hbodies & Hstates).
  assert (Hlt : i < length (GetRigidBodies scene)).
  { rewrite <- Hbodies. by eapply lookup_lt_Some. }
  destruct (lookup_lt_is_Some_2 _ _ Hlt) as [item Hitem].
  destruct (Hstates i item Hitem) as (d & Hd & Hstate).
  assert (d = rigidbody_data) as -> by congruence.
  exists item. split; [done|]. split; [done|]. lia.
Qed.

Lemma run_calls_unwritten scene this calls buffer i q :
  world_invariant scene this →
  i ∉ written_bodies calls →
  i * 16 ≤ q < i * 16 + 16 →
  foldl (run_MotionStateCall (rigidbodies this)) buffer calls !! q = buffer !! q.
Proof.
  intros Hinv. revert buffer.
  induction calls as [|call calls IH]; intros buffer Hnot Hq; [reflexivity|].
  simpl. destruct call as [j|j T]; unfold written_bodies in Hnot; csimpl in Hnot.
  - by apply IH.
  - apply not_elem_of_cons in Hnot as [Hne Hnot].
    rewrite IH by done. simpl.
    destruct (rigidbodies this !! j) as [d|] eqn:Hd; [|reflexivity].
    eapply invariant_write_outside; [exact Hinv|exact Hd|lia].
Qed.

(** X14. In every state of a constructed world, the motion state of a scene body
    in mode Physics, at index [i], stores on a write the sixteen floats of
    the written transform into slot [i] and leaves every other slot and the
    length of the buffer as they are; reading it back returns the written
    transform. *)
Theorem physics_write_then_read scene this i rigidbody_item :
  reachable scene this →
  GetRigidBodies scene !! i = Some rigidbody_item →
  physics_mode rigidbody_item = PHYSICS →
  ∃ rigidbody_data,
    rigidbodies this !! i = Some rigidbody_data
    ∧ ∀ T,
        let written :=
          setWorldTransform (motion_state rigidbody_data) T (transform_buffer this) in
        slot written i = OpenGLMatrix T
        ∧ getWorldTransform (motion_state rigidbody_data) written = T
        ∧ length written = length (transform_buffer this)
        ∧ ∀ j, j ≠ i → slot written j = slot (transform_buffer this) j.
Proof.
  intros Hreach Hi Hmode.
  pose proof (reachable_invariant _ _ Hreach) as Hinv.
  pose proof (slot_fits _ _ _ _ Hinv Hi) as Hfits.
  destruct Hinv as (Hsize & Hbodies & Hstates).
  destruct (Hstates i rigidbody_item Hi) as (d & Hd & Hstate).
  exists d. split; [done|]. intros T written.
  pose proof (slot_setWorldTransform _ i _ T _ i Hstate Hfits) as Hown.
  rewrite decide_True in Hown by done.
  rewrite Hmode in Hstate.
  assert (Hd_state : motion_state d = PhysicsMotionState i).
  { destruct Hstate as [[? _]|[[_ ?]|[? _]]]; [discriminate|done|discriminate]. }
  rewrite Hd_state in Hown. cbn [written_slot] in Hown.
  split; [by unfold written; rewrite Hd_state|]. split.
  { unfold written. rewrite Hd_state. cbn [getWorldTransform].
    by rewrite setFromOpenGLMatrix_slot, Hown, setFromOpenGLMatrix_OpenGLMatrix. }
  split; [apply setWorldTransform_length|].
  intros j Hj. unfold written.
  rewrite (slot_setWorldTransform _ i _ T _ j Hstate Hfits).
  by rewrite decide_False.
Qed.

(** The engine writes a quarter turn at the origin into the sample body. *)
Lemma physics_write_then_read_witness :
  slot (setWorldTransform (PhysicsMotionState 0) sample_rotation sample_transform) 0
  = OpenGLMatrix sample_rotation
  ∧ getWorldTransform (PhysicsMotionState 0)
      (setWorldTransform (PhysicsMotionState 0) sample_rotation sample_transform)
    = sample_rotation.
Proof.
  assert (Hreach : reachable (sample_scene SPHERE PHYSICS [])
                     (sample_world SPHERE PHYSICS [])).
  { by apply (reachable_new _ sample_transform). }
  destruct (physics_write_then_read (sample_scene SPHERE PHYSICS [])
              (sample_world SPHERE PHYSICS []) 0 (sample_rigidbody SPHERE PHYSICS)
              Hreach eq_refl eq_refl) as (d & Hd & Hwrite).
  injection Hd as <-.
  destruct (Hwrite sample_rotation) as (Hslot & Hread & _).
  split; [exact Hslot|exact Hread].
Defined.

(** X15. A step keeps the length of the transform buffer, and changes no slot
    but those of the bodies whose motion state the engine writes through
    during the step. *)
Theorem step_changes_written_slots_only
    scene this delta_time max_sub_steps fixed_time_step calls :
  reachable scene this →
  length (transform_buffer (Step this delta_time max_sub_steps fixed_time_step calls))
  = length (transform_buffer this)
  ∧ ∀ i, i ∉ written_bodies calls →
      slot (transform_buffer (Step this delta_time max_sub_steps fixed_time_step calls)) i
      = slot (transform_buffer this) i.
Proof.
  intros Hreach.
  pose proof (reachable_invariant _ _ Hreach) as Hinv.
  rewrite Step_transform_buffer. split; [apply run_calls_length|].
  intros i Hi. apply slot_ext. intros k Hk.
  eapply run_calls_unwritten; [exact Hinv|exact Hi|lia].
Qed.

(** Two Physics bodies; the engine writes the first one only. *)
Lemma step_changes_written_slots_only_witness :
  slot
    (transform_buffer
       (Step (sample_world2 SPHERE PHYSICS SPHERE PHYSICS []) f32_1_0 f32_1_0 f32_1_0
          [call_setWorldTransform 0 sample_rotation])) 1
  = sample_transform.
Proof.
  assert (Hreach : reachable (sample_scene2 SPHERE PHYSICS SPHERE PHYSICS [])
                     (sample_world2 SPHERE PHYSICS SPHERE PHYSICS [])).
  { by apply (reachable_new _ sample_transform2). }
  destruct (step_changes_written_slots_only
              (sample_scene2 SPHERE PHYSICS SPHERE PHYSICS [])
              (sample_world2 SPHERE PHYSICS SPHERE PHYSICS [])
              f32_1_0 f32_1_0 f32_1_0 [call_setWorldTransform 0 sample_rotation] Hreach)
    as (_ & Hslots).
  apply (Hslots 1). unfold written_bodies. csimpl.
  intros Hin. apply list_elem_of_singleton in Hin. discriminate.
Defined.

(** X16. Writing twice through the motion state of a body leaves the buffer as
    the second write alone does: the last write wins, in each of the three
    modes. *)
Theorem last_write_wins scene this i rigidbody_data T1 T2 buffer :
  reachable scene this →
  rigidbodies this !! i = Some rigidbody_data →
  length buffer = length (transform_buffer this) →
  setWorldTransform (motion_state rigidbody_data) T2
    (setWorldTransform (motion_state rigidbody_data) T1 buffer)
  = setWorldTransform (motion_state rigidbody_data) T2 buffer.
Proof.
  intros Hreach Hi Hlen.
  destruct (reachable_body _ _ _ _ Hreach Hi) as (item & _ & Hstate & Hfits).
  rewrite <- Hlen in Hfits.
  apply slots_eq. intros s.
  rewrite (slot_setWorldTransform _ i _ T2 _ s Hstate)
    by (by rewrite setWorldTransform_length).
  rewrite (slot_setWorldTransform _ i _ T2 buffer s Hstate Hfits).
  case_decide.
  - by eapply written_slot_twice.
  - rewrite (slot_setWorldTransform _ i _ T1 buffer s Hstate Hfits).
    by rewrite decide_False.
Qed.

(** The hybrid body is written twice: the result is that of the last write. *)
Lemma last_write_wins_witness :
  setWorldTransform (PhysicsPlusBoneDynamicMotionState 0) sample_rotation
    (setWorldTransform (PhysicsPlusBoneDynamicMotionState 0) btTransform_getIdentity
       sample_transform)
  = setWorldTransform (PhysicsPlusBoneDynamicMotionState 0) sample_rotation
      sample_transform.
Proof.
  assert (Hreach : reachable (sample_scene SPHERE PHYSICS_PLUS_BONE [])
                     (sample_world SPHERE PHYSICS_PLUS_BONE [])).
  { by apply (reachable_new _ sample_transform). }
  exact (last_write_wins (sample_scene SPHERE PHYSICS_PLUS_BONE [])
           (sample_world SPHERE PHYSICS_PLUS_BONE []) 0 _
           btTransform_getIdentity sample_rotation sample_transform
           Hreach eq_refl eq_refl).
Defined.

(** X17. Writes through the motion states of two different bodies commute: the
    order in which the engine reports two bodies does not matter. *)
Theorem writes_to_different_bodies_commute
    scene this i j data_i data_j T1 T2 buffer :
  reachable scene this →
  rigidbodies this !! i = Some data_i →
  rigidbodies this !! j = Some data_j →
  i ≠ j →
  length buffer = length (transform_buffer this) →
  setWorldTransform (motion_state data_i) T1
    (setWorldTransform (motion_state data_j) T2 buffer)
  = setWorldTransform (motion_state data_j) T2
      (setWorldTransform (motion_state data_i) T1 buffer).
Proof.
  intros Hreach Hi Hj Hne Hlen.
  destruct (reachable_body _ _ _ _ Hreach Hi) as (item_i & _ & Hstate_i & Hfits_i).
  destruct (reachable_body _ _ _ _ Hreach Hj) as (item_j & _ & Hstate_j & Hfits_j).
  rewrite <- Hlen in Hfits_i, Hfits_j.
  assert (Hslot_i : slot (setWorldTransform (motion_state data_j) T2 buffer) i
                    = slot buffer i).
  { rewrite (slot_setWorldTransform _ j _ T2 buffer i Hstate_j Hfits_j).
    by rewrite decide_False. }
  assert (Hslot_j : slot (setWorldTransform (motion_state data_i) T1 buffer) j
                    = slot buffer j).
  { rewrite (slot_setWorldTransform _ i _ T1 buffer j Hstate_i Hfits_i).
    by rewrite decide_False. }
  apply slots_eq. intros s.
  repeat first
    [ rewrite (slot_setWorldTransform _ i _ T1 _ s Hstate_i)
        by (rewrite ?setWorldTransform_length; done)
    | rewrite (slot_setWorldTransform _ j _ T2 _ s Hstate_j)
        by (rewrite ?setWorldTransform_length; done) ].
  destruct (decide (s = i)) as [->|Hsi].
  - rewrite decide_False by done.
    by eapply written_slot_ext.
  - destruct (decide (s = j)) as [->|Hsj]; [|reflexivity].
    symmetry. by eapply written_slot_ext.
Qed.

(** A Physics body and a hybrid body, written in either order. *)
Lemma writes_to_different_bodies_commute_witness :
  setWorldTransform (PhysicsMotionState 0) sample_rotation
    (setWorldTransform (PhysicsPlusBoneDynamicMotionState 1) sample_rotation
       sample_transform2)
  = setWorldTransform (PhysicsPlusBoneDynamicMotionState 1) sample_rotation
      (setWorldTransform (PhysicsMotionState 0) sample_rotation sample_transform2).
Proof.
  assert (Hreach : reachable (sample_scene2 SPHERE PHYSICS SPHERE PHYSICS_PLUS_BONE [])
                     (sample_world2 SPHERE PHYSICS SPHERE PHYSICS_PLUS_BONE [])).
  { by apply (reachable_new _ sample_transform2). }
  exact (writes_to_different_bodies_commute
           (sample_scene2 SPHERE PHYSICS SPHERE PHYSICS_PLUS_BONE [])
           (sample_world2 SPHERE PHYSICS SPHERE PHYSICS_PLUS_BONE [])
           0 1 _ _ sample_rotation sample_rotation sample_transform2
           Hreach eq_refl eq_refl (O_S 0) eq_refl).
Defined.

End MotionStatesMore.

(** ** The entry points *)

Section Binding.

Implicit Types (bytes rigidbody_bytes joint_bytes : list byte).

Lemma capacity_not_minus_one bytes :
  (GetDirectBufferCapacity (direct_ByteBuffer bytes) =? -1)%Z = false.
Proof. simpl. apply Z.eqb_neq. lia. Qed.

Lemma createPhysicsScene_direct rigidbody_bytes joint_bytes :
  createPhysicsScene (Some (direct_ByteBuffer rigidbody_bytes))
    (Some (direct_ByteBuffer joint_bytes))
  = match PhysicsScene_new rigidbody_bytes joint_bytes with
    | inr physics_scene => ([], Some physics_scene)
    | inl (InvalidArgument what) => ([IllegalArgumentException what], None)
    end.
Proof. unfold createPhysicsScene. by rewrite !capacity_not_minus_one. Qed.

Lemma createPhysicsScene_direct_heap rigidbody_bytes joint_bytes :
  createPhysicsScene (Some (direct_ByteBuffer rigidbody_bytes))
    (Some (heap_ByteBuffer joint_bytes))
  = ([IllegalArgumentException "Joints buffer is not direct buffer"], None).
Proof. unfold createPhysicsScene. by rewrite capacity_not_minus_one. Qed.

(** X18. [createPhysicsScene] returns a scene, and throws nothing, exactly when
    both arguments are direct buffers, the first of a length that is a
    nonzero multiple of 72 and the second of a length that is a multiple of
    108; the scene is the decoded one.  In every other case it returns 0 and
    throws exactly one exception; a decoding error becomes an
    IllegalArgumentException with the decoder's message. *)
Theorem createPhysicsScene_outcomes (rigidbodies joints : option ByteBuffer) :
  ((∃ physics_scene, createPhysicsScene rigidbodies joints = ([], Some physics_scene))
   ↔ ∃ rigidbody_bytes joint_bytes,
       rigidbodies = Some (direct_ByteBuffer rigidbody_bytes)
       ∧ joints = Some (direct_ByteBuffer joint_bytes)
       ∧ length rigidbody_bytes ≠ 0
       ∧ length rigidbody_bytes mod 72 = 0
       ∧ length joint_bytes mod 108 = 0)
  ∧ ((∃ physics_scene, createPhysicsScene rigidbodies joints = ([], Some physics_scene))
     ∨ (∃ thrown, createPhysicsScene rigidbodies joints = ([thrown], None)))
  ∧ (∀ rigidbody_bytes joint_bytes physics_scene,
       createPhysicsScene (Some (direct_ByteBuffer rigidbody_bytes))
         (Some (direct_ByteBuffer joint_bytes)) = ([], Some physics_scene)
       ↔ PhysicsScene_new rigidbody_bytes joint_bytes = inr physics_scene)
  ∧ (∀ rigidbody_bytes joint_bytes what,
       PhysicsScene_new rigidbody_bytes joint_bytes = inl (InvalidArgument what) →
       createPhysicsScene (Some (direct_ByteBuffer rigidbody_bytes))
         (Some (direct_ByteBuffer joint_bytes))
       = ([IllegalArgumentException what], None)).
Proof.
  split; [|split; [|split]].
  - split.
    + intros [physics_scene Hscene].
      destruct rigidbodies as [[rb|rb]|], joints as [[jb|jb]|];
        rewrite ?createPhysicsScene_direct_heap in Hscene; try discriminate.
      rewrite createPhysicsScene_direct in Hscene.
      destruct (PhysicsScene_new rb jb) as [[what]|scene] eqn:Hnew; [discriminate|].
      exists rb, jb. split; [done|]. split; [done|].
      by apply (PhysicsScene_new_checks rb jb); exists scene.
    + intros (rb & jb & -> & -> & Hchecks).
      rewrite createPhysicsScene_direct.
      apply (PhysicsScene_new_checks rb jb) in Hchecks as [scene ->].
      by exists scene.
  - destruct rigidbodies as [[rb|rb]|], joints as [[jb|jb]|];
      rewrite ?createPhysicsScene_direct_heap; try (right; by eexists).
    rewrite createPhysicsScene_direct.
    destruct (PhysicsScene_new rb jb) as [[what]|scene];
      [right; by eexists|left; by eexists].
  - intros rb jb physics_scene. rewrite createPhysicsScene_direct.
    destruct (PhysicsScene_new rb jb) as [[what]|scene]; split; intros H;
      by simplify_eq.
  - intros rb jb what Hnew. by rewrite createPhysicsScene_direct, Hnew.
Qed.

Lemma createPhysicsWorld_direct (physics_scene : PhysicsScene) bytes :
  createPhysicsWorld physics_scene (direct_ByteBuffer bytes)
  = let thrown :=
      if decide (length bytes mod 4 = 0) then []
      else [IllegalArgumentException
              "Initial transform buffer size is not a multiple of 4"] in
    match PhysicsWorld_new physics_scene (floats_at bytes (length bytes / 4)) with
    | (physics_world, inr _) => (thrown, Some physics_world)
    | (_, inl (InvalidArgument what)) => (thrown ++ [IllegalArgumentException what], None)
    end.
Proof.
  unfold createPhysicsWorld. rewrite capacity_not_minus_one.
  cbn [GetDirectBufferCapacity GetDirectBufferAddress].
  assert (Hdiv : Z.to_nat (Z.of_nat (length bytes) / 4) = length bytes / 4).
  { change 4%Z with (Z.of_nat 4). by rewrite <- Nat2Z.inj_div, Nat2Z.id. }
  assert (Hmod : (Z.of_nat (length bytes) mod 4 =? 0)%Z
                 = bool_decide (length bytes mod 4 = 0)).
  { change 4%Z with (Z.of_nat 4). rewrite <- Nat2Z.inj_mod.
    destruct (decide (length bytes mod 4 = 0)) as [Hm|Hm].
    - rewrite bool_decide_eq_true_2 by done. apply Z.eqb_eq. lia.
    - rewrite bool_decide_eq_false_2 by done. apply Z.eqb_neq. lia. }
  rewrite Hdiv, Hmod. cbv zeta.
  destruct (decide (length bytes mod 4 = 0)) as [Hm|Hm].
  - by rewrite bool_decide_eq_true_2.
  - by rewrite bool_decide_eq_false_2.
Qed.

Lemma floats_at_lookup bytes count k :
  k < count → floats_at bytes count !! k = Some (little_endian_at bytes (4 * k)).
Proof.
  intros Hk. unfold floats_at.
  rewrite list_lookup_fmap, lookup_seq_lt by done. simpl.
  by rewrite CopyField_little_endian.
Qed.

(** X19. [createPhysicsWorld] hands the constructor one float per four bytes of a
    direct buffer, each the little-endian value of its four bytes, dropping
    up to three bytes at the end.  It returns a world and throws nothing
    exactly when the size is a multiple of 4 and the constructor succeeds; a
    constructor error becomes an IllegalArgumentException with the same
    message and the result 0.  For a size that is not a multiple of 4 it
    throws, but it does not stop there: whether a world is returned is then
    still decided by the constructor alone.  A buffer that is not direct
    gives the result 0 and one exception. *)
Theorem createPhysicsWorld_outcomes (physics_scene : PhysicsScene) bytes :
  let floats := floats_at bytes (length bytes / 4) in
  length floats = length bytes / 4
  ∧ (∀ k, k < length bytes / 4 →
       floats !! k = Some (little_endian_at bytes (4 * k)))
  ∧ (∀ physics_world,
       createPhysicsWorld physics_scene (direct_ByteBuffer bytes)
       = ([], Some physics_world)
       ↔ length bytes mod 4 = 0
         ∧ PhysicsWorld_new physics_scene floats = (physics_world, inr tt))
  ∧ (∀ physics_world,
       (createPhysicsWorld physics_scene (direct_ByteBuffer bytes)).2
       = Some physics_world
       ↔ PhysicsWorld_new physics_scene floats = (physics_world, inr tt))
  ∧ (∀ this what,
       length bytes mod 4 = 0 →
       PhysicsWorld_new physics_scene floats = (this, inl (InvalidArgument what)) →
       createPhysicsWorld physics_scene (direct_ByteBuffer bytes)
       = ([IllegalArgumentException what], None))
  ∧ (length bytes mod 4 ≠ 0 →
     ∃ more,
       (createPhysicsWorld physics_scene (direct_ByteBuffer bytes)).1
       = IllegalArgumentException
           "Initial transform buffer size is not a multiple of 4" :: more)
  ∧ (∀ other,
       createPhysicsWorld physics_scene (heap_ByteBuffer other)
       = ([IllegalArgumentException "Initial transform buffer is not direct buffer"],
          None)).
Proof.
  intros floats. unfold floats.
  split; [unfold floats_at; by rewrite length_map, length_seq|].
  split; [intros k Hk; by apply floats_at_lookup|].
  rewrite createPhysicsWorld_direct. cbv zeta.
  destruct (PhysicsWorld_new physics_scene (floats_at bytes (length bytes / 4)))
    as [this [[what]|[]]];
    destruct (decide (length bytes mod 4 = 0)) as [Hm|Hm];
    repeat split; intros; destruct_and?; simplify_eq/=; try done; eauto.
Qed.

(** Sixty-four bytes for the one body of the sample scene. *)
Lemma createPhysicsWorld_outcomes_witness :
  ∃ physics_world,
    createPhysicsWorld (sample_scene SPHERE PHYSICS [])
      (direct_ByteBuffer (flat_map little_endian_bytes sample_transform))
    = ([], Some physics_world)
    ∧ transform_buffer physics_world = sample_transform.
Proof.
  destruct (createPhysicsWorld_outcomes (sample_scene SPHERE PHYSICS [])
              (flat_map little_endian_bytes sample_transform))
    as (_ & _ & Hok & _).
  exists (sample_world SPHERE PHYSICS []). split; [|reflexivity].
  apply Hok. split; reflexivity.
Defined.

End Binding.
